(** * Music-Arpeggiator: the theory, pattern and rendering services

    A shallow embedding of [backend/app/services]:
    [music_theory_engine.py], [pattern_generator.py], [midi_processor.py]
    and [hybrid_generator.py].

    Conventions.
    - Python [int] is [Z]; [%] and [//] with a positive divisor are
      [Z.modulo] and [Z.div] (both floor towards minus infinity, as in
      Python); a zero divisor raises [ZeroDivisionError].
    - Python [float] values that occur in the services are the rhythm
      durations 0.125 .. 2.0 and their running sums.  All of them are
      multiples of 1/8 and stay far below 2^50, hence binary64 addition on
      them is exact; they are embedded as rationals [Q].
    - [str] is [string]; a character is read as the code point of the same
      number (U+0000 .. U+00FF).
    - [dict] is [gmap]; [d.get(k, default)] is [dict_get].
    - An exception is a value of [exn]; code that may raise returns
      [result].  Ambient random state is threaded explicitly. *)

From Stdlib Require Import ZArith QArith Ascii String List Lia.
From stdpp Require Import base option list gmap strings sorting.

Local Open Scope string_scope.
Local Open Scope list_scope.
Local Open Scope Z_scope.

(** ** Python primitives *)

Inductive exn : Type :=
  | ZeroDivisionError
  | ValueError
  | IndexError
  | ModelError.

(** Outcome of a call into a library: a value or a raised exception. *)
Definition raises (A : Type) : Type := exn + A.

#[global] Instance raises_ret : MRet raises := fun _ a => inr a.
#[global] Instance raises_bind : MBind raises := fun _ _ k r =>
  match r with
  | inr a => k a
  | inl e => inl e
  end.

(** Outcome of a call into the services: a value, a raised exception, or a
    [while] loop that used up its fuel (Python would not return). *)
Inductive result (A : Type) : Type :=
  | Ok (a : A)
  | Raise (e : exn)
  | Diverge.
Arguments Ok {A} a.
Arguments Raise {A} e.
Arguments Diverge {A}.

#[global] Instance result_ret : MRet result := fun _ a => Ok a.
#[global] Instance result_bind : MBind result := fun _ _ k r =>
  match r with
  | Ok a => k a
  | Raise e => Raise e
  | Diverge => Diverge
  end.

Definition call {A} (r : raises A) : result A :=
  match r with
  | inr a => Ok a
  | inl e => Raise e
  end.

(** [d.get(k, default)] *)
Definition dict_get {V} (d : gmap string V) (k : string) (default : V) : V :=
  match d !! k with
  | Some v => v
  | None => default
  end.

(** [a % b] *)
Definition py_mod (a b : Z) : raises Z :=
  if decide (b = 0) then inl ZeroDivisionError else inr (a mod b).

(** [len(l)] *)
Definition len {A} (l : list A) : Z := Z.of_nat (length l).

(** [l[i]] for [0 <= i]; out of range raises [IndexError]. *)
Definition py_index {A} (l : list A) (i : Z) : raises A :=
  match l !! Z.to_nat i with
  | Some x => inr x
  | None => inl IndexError
  end.

(** [l[:n]]: a negative bound counts from the end. *)
Definition py_take {A} (n : Z) (l : list A) : list A :=
  if decide (0 <= n) then take (Z.to_nat n) l
  else take (Z.to_nat (len l + n)) l.

(** [range(n)] *)
Definition range (n : Z) : list Z := map Z.of_nat (seq 0 (Z.to_nat n)).

(** ** Mood Configuration Table ([MusicTheoryEngine.__init__]) *)

Record MoodConfig : Type := {
  scale_type : string;
  chord_progression : list string;
  rhythm_patterns : list (list Q);
  velocity_range : Z * Z;
  octave_range : Z * Z;
  note_density : string
}.

Definition mood_configs : gmap string MoodConfig :=
  list_to_map [
    ("happy", {|
       scale_type := "major";
       chord_progression := ["I"; "IV"; "V"; "I"];
       rhythm_patterns := [ [1#4; 1#4; 1#4; 1#4]; [1#2; 1#4; 1#4] ]%Q;
       velocity_range := (80, 110);
       octave_range := (0, 1);
       note_density := "high" |});
    ("calm", {|
       scale_type := "major";
       chord_progression := ["I"; "vi"; "IV"; "V"];
       rhythm_patterns := [ [1#2; 1#2]; [1#1] ]%Q;
       velocity_range := (50, 80);
       octave_range := (0, 0);
       note_density := "low" |});
    ("energetic", {|
       scale_type := "major";
       chord_progression := ["I"; "V"; "vi"; "IV"];
       rhythm_patterns := [ [1#8; 1#8; 1#8; 1#8; 1#8; 1#8; 1#8; 1#8] ]%Q;
       velocity_range := (90, 127);
       octave_range := (0, 2);
       note_density := "very_high" |});
    ("dark", {|
       scale_type := "minor";
       chord_progression := ["i"; "iv"; "v"; "i"];
       rhythm_patterns := [ [1#2; 1#2]; [3#4; 1#4] ]%Q;
       velocity_range := (40, 70);
       octave_range := (-1, 0);
       note_density := "medium" |});
    ("ambient", {|
       scale_type := "major";
       chord_progression := ["I"; "IV"; "I"; "V"];
       rhythm_patterns := [ [1#1]; [2#1] ]%Q;
       velocity_range := (30, 60);
       octave_range := (0, 1);
       note_density := "very_low" |});
    ("chaotic", {|
       scale_type := "chromatic";
       chord_progression := ["I"; "bII"; "V"; "i"];
       rhythm_patterns := [ [1#8; 1#4; 1#8; 1#2]; [1#4; 1#8; 1#8; 1#4; 1#4] ]%Q;
       velocity_range := (60, 120);
       octave_range := (-1, 2);
       note_density := "high" |});
    ("epic", {|
       scale_type := "minor";
       chord_progression := ["i"; "VI"; "III"; "VII"];
       rhythm_patterns := [ [1#2; 1#4; 1#4]; [1#4; 1#4; 1#2] ]%Q;
       velocity_range := (80, 120);
       octave_range := (0, 2);
       note_density := "high" |});
    ("melancholic", {|
       scale_type := "minor";
       chord_progression := ["i"; "iv"; "VI"; "v"];
       rhythm_patterns := [ [3#4; 1#4]; [1#2; 1#2] ]%Q;
       velocity_range := (45, 75);
       octave_range := (0, 1);
       note_density := "medium" |})
  ].

#[global] Instance MoodConfig_inhabited : Inhabited MoodConfig :=
  populate {| scale_type := ""; chord_progression := [];
              rhythm_patterns := []; velocity_range := (0, 0);
              octave_range := (0, 0); note_density := "" |}.

(** [MusicTheoryEngine._get_notes_per_bar] *)
Definition density_map : gmap string Z :=
  list_to_map [("very_low", 2); ("low", 4); ("medium", 8);
               ("high", 16); ("very_high", 32)].

Definition _get_notes_per_bar (density : string) : Z :=
  dict_get density_map density 8.

(** ** External collaborators

    The services call four libraries.  Each is an interface here; the
    services are embedded over any implementation of it. *)

(** Python's [random] module: [random.seed(n)] and the generator's
    [_randbelow(n)], which returns a value in [[0, n)]. *)
Class PyRandom : Type := {
  rng_state : Type;
  random_seed : Z -> rng_state;
  _randbelow : rng_state -> Z -> Z * rng_state;
  _randbelow_range : forall g n, 0 < n -> 0 <= (_randbelow g n).1 < n
}.

(** music21: [pitch.Pitch(name)], the three scale constructors, the
    [pitches] property of a scale and the [midi] property of a pitch. *)
Class Music21 : Type := {
  Pitch : Type;
  Scale : Type;
  pitch_Pitch : string -> raises Pitch;
  scale_MajorScale : Pitch -> raises Scale;
  scale_MinorScale : Pitch -> raises Scale;
  scale_ChromaticScale : Pitch -> raises Scale;
  pitches : Scale -> raises (list Pitch);
  midi : Pitch -> raises Z
}.

(** numpy and torch seeding, and the GPT-2 pipeline of
    [PatternGenerator._generate_text]: tokenizer, [model.generate] with
    sampling, [tokenizer.decode]. *)
Class Torch : Type := {
  np_state : Type;
  np_random_seed : Z -> raises np_state;
  torch_state : Type;
  torch_manual_seed : Z -> raises torch_state;
  model_generate : string -> Q -> torch_state -> raises string * torch_state
}.

Section Random.
Context `{PyRandom}.

(** [random.choice(seq)] *)
Definition random_choice {A} (seq : list A) (g : rng_state)
  : raises (A * rng_state) :=
  match seq with
  | [] => inl IndexError
  | _ => let '(i, g') := _randbelow g (len seq) in
         x ← py_index seq i; mret (x, g')
  end.

(** [random.randint(a, b)] *)
Definition random_randint (a b : Z) (g : rng_state)
  : raises (Z * rng_state) :=
  let width := b + 1 - a in
  if decide (0 < width)
  then let '(r, g') := _randbelow g width in inr (a + r, g')
  else inl ValueError.
End Random.

(** ** Scale Resolver ([MusicTheoryEngine.get_scale_notes]) *)

(** [sorted(list(set(pitches)))] *)
Definition sorted_set (pitches : list Z) : list Z :=
  merge_sort Z.le (elements (list_to_set pitches : gset Z)).

Definition fallback_scale : list Z := [60; 62; 64; 65; 67; 69; 71; 72].

Section ScaleResolver.
Context `{Music21}.

(** The inner [for p in s.pitches] loop for one octave. *)
Fixpoint scan_pitches (ps : list Pitch) (octave : Z) (acc : list Z)
  : raises (list Z) :=
  match ps with
  | [] => inr acc
  | p :: rest =>
      m ← midi p;
      let midi := m + octave * 12 in
      if decide (21 <= midi <= 108)
      then scan_pitches rest octave (acc ++ [midi])
      else scan_pitches rest octave acc
  end.

(** The outer [for octave in range(-1, 3)] loop. *)
Fixpoint scan_octaves (s : Scale) (octaves : list Z) (acc : list Z)
  : raises (list Z) :=
  match octaves with
  | [] => inr acc
  | octave :: rest =>
      ps ← pitches s;
      acc' ← scan_pitches ps octave acc;
      scan_octaves s rest acc'
  end.

(** The [if scale_type == ...] chain. *)
Definition select_scale (scale_type : string) (key_pitch : Pitch) : raises Scale :=
  if decide (scale_type = "major") then scale_MajorScale key_pitch
  else if decide (scale_type = "minor") then scale_MinorScale key_pitch
  else if decide (scale_type = "chromatic") then scale_ChromaticScale key_pitch
  else scale_MajorScale key_pitch.

(** The body of the [try]. *)
Definition get_scale_notes_try (key scale_type : string) : raises (list Z) :=
  key_pitch ← pitch_Pitch key;
  s ← select_scale scale_type key_pitch;
  pitches ← scan_octaves s [-1; 0; 1; 2] [];
  mret (sorted_set pitches).

Definition get_scale_notes (key scale_type : string) : list Z :=
  match get_scale_notes_try key scale_type with
  | inr notes => notes
  | inl _ => fallback_scale
  end.
End ScaleResolver.

(** ** Arpeggio Renderer and style patterns ([MusicTheoryEngine]) *)

Record Note : Type := {
  pitch : Z;
  start : Q;
  end_ : Q;
  velocity : Z
}.

(** [MusicTheoryEngine._key_to_midi] *)
Definition key_map : gmap string Z :=
  list_to_map [("C", 60); ("C#", 61); ("Db", 61);
               ("D", 62); ("D#", 63); ("Eb", 63);
               ("E", 64);
               ("F", 65); ("F#", 66); ("Gb", 66);
               ("G", 67); ("G#", 68); ("Ab", 68);
               ("A", 69); ("A#", 70); ("Bb", 70);
               ("B", 71)].

Definition _key_to_midi (key : string) : Z := dict_get key_map key 60.

Section Engine.
Context `{PyRandom} `{Music21}.

(** The body of [for i in range(total_notes)], iterated over the index
    list; [notes] and [current_time] are the loop's two variables. *)
Fixpoint render_loop (config : MoodConfig) (intervals scale_notes : list Z)
    (rhythm_pattern : list Q) (indices : list Z)
    (notes : list Note) (current_time : Q) (g : rng_state)
  : raises (list Note * rng_state) :=
  match indices with
  | [] => inr (notes, g)
  | i :: rest =>
      k ← py_mod i (len intervals);
      interval ← py_index intervals k;
      scale_index ← py_mod interval (len scale_notes);
      base_pitch ← py_index scale_notes scale_index;
      '(o, g) ← random_randint (octave_range config).1 (octave_range config).2 g;
      let octave_offset := o * 12 in
      let pitch := base_pitch + octave_offset in
      let pitch := Z.max 21 (Z.min 108 pitch) in
      j ← py_mod i (len rhythm_pattern);
      duration ← py_index rhythm_pattern j;
      '(velocity, g) ← random_randint (velocity_range config).1
                                       (velocity_range config).2 g;
      let notes := notes ++ [ {| pitch := pitch;
                                 start := current_time;
                                 end_ := (current_time + duration)%Q;
                                 velocity := velocity |} ] in
      let current_time := (current_time + duration)%Q in
      render_loop config intervals scale_notes rhythm_pattern rest
                  notes current_time g
  end.

Definition create_arpeggio_from_intervals
    (key mood : string) (intervals : list Z) (num_bars bpm : Z)
    (g : rng_state) : raises (list Note * rng_state) :=
  let config := dict_get mood_configs mood (mood_configs !!! "happy") in
  let scale_notes := get_scale_notes key (scale_type config) in
  let root_midi := _key_to_midi key in
  let notes_per_bar := _get_notes_per_bar (note_density config) in
  let total_notes := notes_per_bar * num_bars in
  '(rhythm_pattern, g) ← random_choice (rhythm_patterns config) g;
  render_loop config intervals scale_notes rhythm_pattern
              (range total_notes) [] 0%Q g.

(** The [alternating] branch's loop; [pattern] and [ascending] are its
    variables. *)
Fixpoint alternating_loop (indices : list Z) (pattern : list Z)
    (ascending : bool) : list Z :=
  match indices with
  | [] => pattern
  | i :: rest =>
      let pattern :=
        if ascending then pattern ++ [i mod 8]
        else pattern ++ [7 - i mod 8] in
      let ascending :=
        if decide ((i + 1) mod 8 = 0) then negb ascending else ascending in
      alternating_loop rest pattern ascending
  end.

(** [[random.randint(0, 7) for _ in range(total_notes)]] *)
Fixpoint random_pattern (indices : list Z) (g : rng_state)
  : raises (list Z * rng_state) :=
  match indices with
  | [] => inr ([], g)
  | _ :: rest =>
      '(x, g) ← random_randint 0 7 g;
      '(xs, g) ← random_pattern rest g;
      mret (x :: xs, g)
  end.

Definition create_pattern_from_style
    (style key mood : string) (num_bars : Z) (g : rng_state)
  : raises (list Z * rng_state) :=
  let config := dict_get mood_configs mood (mood_configs !!! "happy") in
  let notes_per_bar := _get_notes_per_bar (note_density config) in
  let total_notes := notes_per_bar * num_bars in
  if decide (style = "ascending") then
    inr (map (fun i => i mod 8) (range total_notes), g)
  else if decide (style = "descending") then
    inr (map (fun i => 7 - i mod 8) (range total_notes), g)
  else if decide (style = "alternating") then
    inr (alternating_loop (range total_notes) [] true, g)
  else if decide (style = "random") then
    random_pattern (range total_notes) g
  else
    inr (map (fun i => i mod 8) (range total_notes), g).
End Engine.

(** *** Pattern description ([get_mood_description]) *)

Definition ord (c : ascii) : Z := Z.of_nat (nat_of_ascii c).
Definition chr (n : Z) : ascii := ascii_of_nat (Z.to_nat n).

(** [c.lower()] on U+0000 .. U+00FF: A-Z, and the capitals U+00C0 ..
    U+00DE except the multiplication sign, move up by 32. *)
Definition lower (c : ascii) : ascii :=
  let n := ord c in
  if ((65 <=? n) && (n <=? 90))
     || ((192 <=? n) && (n <=? 222) && negb (n =? 215))
  then chr (n + 32) else c.

(** [c.upper()] on U+0000 .. U+00FF for the characters whose capital lies
    in the same range: a-z and U+00E0 .. U+00FE except the division sign.
    (The capitals of U+00B5, U+00DF and U+00FF lie outside the range;
    mood names do not contain them.) *)
Definition upper (c : ascii) : ascii :=
  let n := ord c in
  if ((97 <=? n) && (n <=? 122))
     || ((224 <=? n) && (n <=? 254) && negb (n =? 247))
  then chr (n - 32) else c.

(** [s.capitalize()] *)
Definition capitalize (s : string) : string :=
  match s with
  | EmptyString => EmptyString
  | String c rest =>
      String (upper c) (string_of_list_ascii (map lower (list_ascii_of_string rest)))
  end.

(** [sum(1 for i in range(len(l) - 1) if cmp(l[i + 1], l[i]))] *)
Fixpoint count_steps (cmp : Z -> Z -> bool) (l : list Z) : Z :=
  match l with
  | x :: (y :: _) as tl => (if cmp y x then 1 else 0) + count_steps cmp tl
  | _ => 0
  end.

(** [MusicTheoryEngine._analyze_pattern_movement] *)
Definition _analyze_pattern_movement (intervals : list Z) : string :=
  if decide (len intervals < 2) then "static"
  else
    let ascending := count_steps (fun next prev => prev <? next) intervals in
    let descending := count_steps (fun next prev => next <? prev) intervals in
    if Qlt_le_dec (inject_Z descending * (3 # 2)) (inject_Z ascending)
    then "ascending"
    else if Qlt_le_dec (inject_Z ascending * (3 # 2)) (inject_Z descending)
    then "descending"
    else "alternating".

(** [MusicTheoryEngine.get_mood_description] *)
Definition get_mood_description (mood : string) (intervals : list Z) : string :=
  let config := dict_get mood_configs mood (mood_configs !!! "happy") in
  let pattern_movement := _analyze_pattern_movement intervals in
  capitalize mood +:+ " " +:+ scale_type config +:+ " arpeggio with "
    +:+ pattern_movement +:+ " movement".

(** ** MIDI Encoder ([MidiProcessor]) *)

(** [pretty_midi.Note], [pretty_midi.Instrument], [pretty_midi.PrettyMIDI] *)
Record MidiNote : Type := {
  note_velocity : Z;
  note_pitch : Z;
  note_start : Q;
  note_end : Q
}.

Record Instrument : Type := {
  program : Z;
  instrument_notes : list MidiNote
}.

Record PrettyMIDI : Type := {
  initial_tempo : Z;
  instruments : list Instrument
}.

(** [PrettyMIDI.write] into a byte buffer. *)
Class PrettyMidiWriter : Type := {
  write : PrettyMIDI -> raises (list Byte.byte)
}.

Definition default_instrument : Z := 0.

(** [MidiProcessor.notes_to_midi]; the [except] clause re-raises. *)
Definition notes_to_midi (notes : list Note) (bpm : Z)
    (instrument_program : option Z) : PrettyMIDI :=
  let instrument_program :=
    match instrument_program with
    | None => default_instrument
    | Some p => p
    end in
  let midi := {| initial_tempo := bpm; instruments := [] |} in
  let instrument_notes :=
    map (fun note_data =>
           {| note_velocity := velocity note_data;
              note_pitch := pitch note_data;
              note_start := start note_data;
              note_end := end_ note_data |}) notes in
  let instrument := {| program := instrument_program;
                       instrument_notes := instrument_notes |} in
  {| initial_tempo := initial_tempo midi;
     instruments := instruments midi ++ [instrument] |}.

(** [MidiProcessor.midi_to_bytes] *)
Definition midi_to_bytes `{PrettyMidiWriter} (midi : PrettyMIDI)
  : raises (list Byte.byte) := write midi.

(** ** Interval Pattern Generator ([PatternGenerator]) *)

(** Character classes of Python 3 [str] on U+0000 .. U+00FF. *)

(** [\d] of [re] (Unicode category Nd): the ten ASCII digits. *)
Definition re_digit (c : ascii) : bool :=
  let n := ord c in (48 <=? n) && (n <=? 57).

(** [c.isdigit()]: the ASCII digits and the superscripts U+00B2, U+00B3,
    U+00B9. *)
Definition isdigit (c : ascii) : bool :=
  let n := ord c in
  re_digit c || (n =? 178) || (n =? 179) || (n =? 185).

(** [c.isalpha()]: the letters of U+0000 .. U+00FF. *)
Definition isalpha (c : ascii) : bool :=
  let n := ord c in
  ((65 <=? n) && (n <=? 90)) || ((97 <=? n) && (n <=? 122))
  || (n =? 170) || (n =? 181) || (n =? 186)
  || ((192 <=? n) && (n <=? 214)) || ((216 <=? n) && (n <=? 246))
  || ((248 <=? n) && (n <=? 255)).

(** [int(c)] of one character: only decimal digits parse. *)
Definition int_char (c : ascii) : raises Z :=
  if re_digit c then inr (ord c - 48) else inl ValueError.

(** [int(m)] of a run of decimal digits.  (The interpreter refuses runs
    of more than 4300 digits; the model emits at most 150 tokens, so the
    runs stay far shorter.) *)
Definition int (m : list ascii) : Z :=
  fold_left (fun acc c => 10 * acc + (ord c - 48)) m 0.

(** [re.findall(r'\d+', text)]: the maximal digit runs, left to right;
    [run] is the run being read. *)
Fixpoint digit_runs (text : list ascii) (run : list ascii) : list (list ascii) :=
  match text with
  | [] => match run with [] => [] | _ => [run] end
  | c :: rest =>
      if re_digit c then digit_runs rest (run ++ [c])
      else match run with
           | [] => digit_runs rest []
           | _ => run :: digit_runs rest []
           end
  end.

Definition re_findall_digits (text : string) : list (list ascii) :=
  digit_runs (list_ascii_of_string text) [].

Definition mood_descriptions : gmap string string :=
  list_to_map [
    ("happy", "uplifting, bright, and joyful");
    ("calm", "peaceful, serene, and gentle");
    ("energetic", "dynamic, powerful, and exciting");
    ("dark", "mysterious, somber, and intense");
    ("ambient", "atmospheric, spacious, and ethereal");
    ("chaotic", "unpredictable, wild, and intense");
    ("epic", "grand, heroic, and dramatic");
    ("melancholic", "sad, reflective, and emotional")
  ].

(** [PatternGenerator._create_prompt] *)
Definition _create_prompt (key mood : string) (num_notes : Z) : string :=
  let description := dict_get mood_descriptions mood "musical" in
  "Music composition in " +:+ key +:+ " with " +:+ description
    +:+ " character." +:+ String (chr 10) "Arpeggio pattern: ".

(** The padding loop
    [while len(intervals) < num_notes:
         intervals.extend(intervals[:num_notes - len(intervals)])]. *)
Fixpoint pad_loop (fuel : nat) (intervals : list Z) (num_notes : Z)
  : result (list Z) :=
  if decide (len intervals < num_notes) then
    match fuel with
    | O => Diverge
    | S fuel =>
        pad_loop fuel
          (intervals ++ py_take (num_notes - len intervals) intervals)
          num_notes
    end
  else Ok intervals.

(** The character scan [for char in text[len(text)//2:]] with its
    [break]. *)
Fixpoint scan_chars (chars : list ascii) (intervals : list Z) (num_notes : Z)
  : raises (list Z) :=
  match chars with
  | [] => inr intervals
  | char :: rest =>
      intervals ←
        (if isdigit char then
           d ← int_char char; mret (intervals ++ [d mod 8])
         else if isalpha char then
           mret (intervals ++ [ord (lower char) mod 8])
         else mret intervals);
      if decide (num_notes <= len intervals) then inr intervals
      else scan_chars rest intervals num_notes
  end.

(** [PatternGenerator._extract_intervals] *)
Definition _extract_intervals (text : string) (num_notes : Z)
  : result (list Z) :=
  let matches := re_findall_digits text in
  match matches with
  | _ :: _ =>
      let intervals := map (fun m => int m mod 8) (py_take num_notes matches) in
      intervals ← pad_loop (Z.to_nat num_notes) intervals num_notes;
      Ok (py_take num_notes intervals)
  | [] =>
      let chars := list_ascii_of_string text in
      intervals ← call (scan_chars (drop (Z.to_nat (len chars / 2)) chars)
                                   [] num_notes);
      Ok (match intervals with
          | _ :: _ => py_take num_notes intervals
          | [] => []
          end)
  end.

Definition patterns : gmap string (list Z) :=
  list_to_map [
    ("happy", [0; 2; 4; 7; 4; 2]);
    ("calm", [0; 2; 4; 2; 0]);
    ("energetic", [0; 4; 7; 12; 7; 4; 0; -5]);
    ("dark", [0; 3; 5; 7; 5; 3]);
    ("ambient", [0; 4; 7; 11; 7; 4]);
    ("chaotic", [0; 6; 2; 7; 1; 5; 3; 4]);
    ("epic", [0; 3; 7; 10; 7; 3]);
    ("melancholic", [0; 3; 5; 8; 5; 3])
  ].

(** The loop
    [while len(intervals) < num_notes: intervals.extend(base_pattern)]. *)
Fixpoint extend_loop (fuel : nat) (intervals base_pattern : list Z)
    (num_notes : Z) : result (list Z) :=
  if decide (len intervals < num_notes) then
    match fuel with
    | O => Diverge
    | S fuel => extend_loop fuel (intervals ++ base_pattern) base_pattern num_notes
    end
  else Ok intervals.

(** [PatternGenerator._fallback_pattern] *)
Definition _fallback_pattern (mood : string) (num_notes : Z) : result (list Z) :=
  let base_pattern := dict_get patterns mood [0; 2; 4; 5; 7] in
  intervals ← extend_loop (Z.to_nat num_notes) [] base_pattern num_notes;
  Ok (py_take num_notes intervals).

Section PatternGenerator.
Context `{Torch}.

(** [PatternGenerator._generate_text] *)
Definition _generate_text (prompt : string) (temperature : Q)
    (ts : torch_state) : raises string * torch_state :=
  model_generate prompt temperature ts.

(** [PatternGenerator.generate_interval_pattern]; [body] is the [try]
    block, the final [match] its [except Exception] clause. *)
Definition generate_interval_pattern (key mood : string) (num_notes : Z)
    (temperature : Q) (ts : torch_state) : result (list Z) * torch_state :=
  let prompt := _create_prompt key mood num_notes in
  let '(generated, ts) := _generate_text prompt temperature ts in
  let body : result (list Z) :=
    generated_text ← call generated;
    intervals ← _extract_intervals generated_text num_notes;
    if decide (intervals = [] ∨ len intervals < num_notes / 2)
    then _fallback_pattern mood num_notes
    else Ok intervals in
  (match body with
   | Raise e => _fallback_pattern mood num_notes
   | r => r
   end, ts).
End PatternGenerator.

(** ** Orchestration ([HybridMusicGenerator]) *)

Section Hybrid.
Context `{PyRandom} `{Music21} `{Torch}.

(** The ambient random state of the process: the generators of
    [random], [numpy.random] and [torch]. *)
Record World : Type := {
  py_random : rng_state;
  np_random : np_state;
  torch_random : torch_state
}.

(** [HybridMusicGenerator._generate_ai_pattern] *)
Definition _generate_ai_pattern (key mood : string) (num_bars : Z)
    (ts : torch_state) : result (list Z) * torch_state :=
  let config := dict_get mood_configs mood (mood_configs !!! "happy") in
  let notes_per_bar := _get_notes_per_bar (note_density config) in
  let num_notes := notes_per_bar * num_bars in
  generate_interval_pattern key mood num_notes (8 # 10) ts.

(** The [if seed is not None] block. *)
Definition seed_all (seed : option Z) (w : World) : result World :=
  match seed with
  | Some seed =>
      let py := random_seed seed in
      np ← call (np_random_seed seed);
      ts ← call (torch_manual_seed seed);
      Ok {| py_random := py; np_random := np; torch_random := ts |}
  | None => Ok w
  end.

(** [HybridMusicGenerator.generate_arpeggio] *)
Definition generate_arpeggio (key mood : string) (bpm num_bars : Z)
    (pattern_style : string) (seed : option Z) (w : World)
  : result (PrettyMIDI * string * World) :=
  w ← seed_all seed w;
  '(intervals, w) ←
    (if decide (pattern_style = "ai-generated") then
       let '(r, ts) := _generate_ai_pattern key mood num_bars (torch_random w) in
       intervals ← r;
       Ok (intervals, {| py_random := py_random w; np_random := np_random w;
                         torch_random := ts |})
     else
       '(intervals, g) ← call (create_pattern_from_style pattern_style key
                                 mood num_bars (py_random w));
       Ok (intervals, {| py_random := g; np_random := np_random w;
                         torch_random := torch_random w |}));
  '(notes, g) ← call (create_arpeggio_from_intervals key mood intervals
                        num_bars bpm (py_random w));
  let midi := notes_to_midi notes bpm None in
  let description := get_mood_description mood intervals in
  Ok (midi, description,
      {| py_random := g; np_random := np_random w;
         torch_random := torch_random w |}).

(** [HybridMusicGenerator.get_available_moods] *)
Definition get_available_moods : list string :=
  ["happy"; "calm"; "energetic"; "dark"; "ambient"; "chaotic"; "epic";
   "melancholic"].
End Hybrid.

(** ** Request schema ([models/schemas.py])

    The fields of [ArpeggiatorRequest] and the constraints the schema puts
    on them. *)

Record ArpeggiatorRequest : Type := {
  req_key : string;
  req_mood : string;
  req_bpm : Z;
  req_num_bars : Z;
  req_pattern_style : string;
  req_seed : option Z
}.

(** [pattern="^[A-G](#|b)?$"] *)
Definition key_pattern (key : string) : bool :=
  match key with
  | String c rest =>
      ((65 <=? ord c) && (ord c <=? 71))
      && (bool_decide (rest = "") || bool_decide (rest = "#")
          || bool_decide (rest = "b"))
  | EmptyString => false
  end.

(** The two [Literal] types. *)
Definition mood_literal : list string :=
  ["happy"; "calm"; "energetic"; "dark"; "ambient"; "chaotic"; "epic";
   "melancholic"].

Definition pattern_style_literal : list string :=
  ["ascending"; "descending"; "alternating"; "random"; "ai-generated"].

Definition request_valid (r : ArpeggiatorRequest) : Prop :=
  key_pattern (req_key r) = true
  /\ req_mood r ∈ mood_literal
  /\ 40 <= req_bpm r <= 240
  /\ 1 <= req_num_bars r <= 8
  /\ req_pattern_style r ∈ pattern_style_literal.

(** ** HTTP facade ([main.py])

    The two generation endpoints, without the transport: the note list of
    the JSON response and the bytes of the MIDI download. *)

Section Facade.
Context `{PyRandom} `{Music21} `{Torch} `{PrettyMidiWriter}.

(** The note list of the JSON response. *)
Definition generated_notes (key mood : string) (bpm num_bars : Z)
    (pattern_style : string) (seed : option Z) (w : World)
  : result (list MidiNote) :=
  '(midi, _, _) ← generate_arpeggio key mood bpm num_bars pattern_style seed w;
  Ok (flat_map instrument_notes (instruments midi)).

(** The MIDI download path of the HTTP facade: generate, then serialise. *)
Definition generate_midi_bytes (key mood : string) (bpm num_bars : Z)
    (pattern_style : string) (seed : option Z) (w : World)
  : result (list Byte.byte) :=
  '(midi, _, _) ← generate_arpeggio key mood bpm num_bars pattern_style seed w;
  call (midi_to_bytes midi).

End Facade.

(** ** Stub collaborators

    Small executable implementations of the four interfaces, used to run
    the services on concrete requests. *)

Module Stub.

(** A linear congruential generator. *)
Definition lcg_step (g : Z) : Z := (1103515245 * g + 12345) mod 2147483648.

Program Definition random : PyRandom := {|
  rng_state := Z;
  random_seed := fun seed => seed mod 2147483648;
  _randbelow := fun g n => (lcg_step g mod n, lcg_step g)
|}.
Next Obligation. intros g n Hn. simpl. apply Z.mod_pos_bound. exact Hn. Qed.

(** Pitches are MIDI numbers in octave 4; a key is a step letter with an
    optional [#] or [-]. *)
Definition step_midi (c : ascii) : raises Z :=
  match c with
  | "C"%char => inr 60 | "D"%char => inr 62 | "E"%char => inr 64
  | "F"%char => inr 65 | "G"%char => inr 67 | "A"%char => inr 69
  | "B"%char => inr 71
  | _ => inl ValueError
  end.

Definition parse_key (key : string) : raises Z :=
  match key with
  | String c EmptyString => step_midi c
  | String c (String "#" EmptyString) => m ← step_midi c; mret (m + 1)
  | String c (String "-" EmptyString) => m ← step_midi c; mret (m - 1)
  | _ => inl ValueError
  end.

Definition music21 : Music21 := {|
  Pitch := Z;
  Scale := list Z;
  pitch_Pitch := parse_key;
  scale_MajorScale := fun p => inr (map (Z.add p) [0; 2; 4; 5; 7; 9; 11; 12]);
  scale_MinorScale := fun p => inr (map (Z.add p) [0; 2; 3; 5; 7; 8; 10; 12]);
  scale_ChromaticScale := fun p =>
    inr (map (Z.add p) [0; 1; 2; 3; 4; 5; 6; 7; 8; 9; 10; 11; 12]);
  pitches := fun s => inr s;
  midi := fun p => inr p
|}.

(** A model that answers from a fixed list of texts, chosen by the
    sampler state, and raises on every fourth call. *)
Definition canned (ts : Z) : raises string :=
  match ts mod 4 with
  | 0 => inr "Arpeggio pattern: 3 1 4 1 5 9 2 6"
  | 1 => inr "abcd"
  | 2 => inr "!!"
  | _ => inl ModelError
  end.

Definition torch : Torch := {|
  np_state := Z;
  np_random_seed := fun seed =>
    if decide (0 <= seed < 4294967296) then inr seed else inl ValueError;
  torch_state := Z;
  torch_manual_seed := fun seed => inr seed;
  model_generate := fun prompt temperature ts => (canned ts, ts + 1)
|}.

(** A model whose text is [abcd], a superscript two (U+00B2), [e]. *)
Definition superscript_text : string :=
  string_of_list_ascii
    ["a"; "b"; "c"; "d"; ascii_of_nat 178; "e"]%char.

Definition superscript_torch : Torch := {|
  np_state := Z;
  np_random_seed := fun seed => inr seed;
  torch_state := Z;
  torch_manual_seed := fun seed => inr seed;
  model_generate := fun prompt temperature ts => (inr superscript_text, ts + 1)
|}.

(** A writer that emits the tempo and one pitch byte per note. *)
Definition to_byte (n : Z) : Byte.byte :=
  match Byte.of_N (Z.to_N (n mod 256)) with
  | Some b => b
  | None => Byte.x00
  end.

Definition writer : PrettyMidiWriter := {|
  write := fun m =>
    inr (to_byte (initial_tempo m)
         :: flat_map (fun i => map (fun n => to_byte (note_pitch n))
                                   (instrument_notes i))
                     (instruments m))
|}.

Definition world (py np ts : Z) : @World random torch :=
  {| py_random := py : @rng_state random;
     np_random := np : @np_state torch;
     torch_random := ts : @torch_state torch |}.

End Stub.

(** * Notions used in the statements *)

(** The reference sequences of the three deterministic styles. *)
Definition ascending_ref (total_notes : Z) : list Z :=
  map (fun i => i mod 8) (range total_notes).

Definition descending_ref (total_notes : Z) : list Z :=
  map (fun i => 7 - i mod 8) (range total_notes).

(** Runs of eight: run number [i / 8] ascends when even, descends when
    odd. *)
Definition alternating_ref (total_notes : Z) : list Z :=
  map (fun i => if Z.even (i / 8) then i mod 8 else 7 - i mod 8)
      (range total_notes).

(** Every configuration offers at least one rhythm pattern, every pattern
    is a non-empty list of positive durations, and both random ranges are
    non-empty. *)
Definition config_ok (c : MoodConfig) : Prop :=
  rhythm_patterns c <> []
  /\ Forall (fun rp => rp <> [] /\ Forall (fun d => (0 < d)%Q) rp)
            (rhythm_patterns c)
  /\ (octave_range c).1 <= (octave_range c).2
  /\ (velocity_range c).1 <= (velocity_range c).2.

(** The (start, end) pairs produced by a cursor that starts at [t] and
    advances by each duration in turn. *)
Fixpoint timeline (t : Q) (durations : list Q) : list (Q * Q) :=
  match durations with
  | [] => []
  | d :: rest => (t, (t + d)%Q) :: timeline (t + d)%Q rest
  end.

Definition times (n : Note) : Q * Q := (start n, end_ n).

(** [rhythm_pattern[i % len(rhythm_pattern)]] for each index. *)
Definition chosen_durations (rhythm_pattern : list Q) (indices : list Z) : list Q :=
  map (fun i => nth (Z.to_nat (i mod len rhythm_pattern)) rhythm_pattern 0%Q)
      indices.

(** End time of the last note; 0 for no notes. *)
Definition end_time (notes : list Note) : Q :=
  match last notes with
  | Some n => end_ n
  | None => 0%Q
  end.

(** The first [n] elements of the infinite cyclic repetition of [l]. *)
Definition cyclic_prefix (l : list Z) (n : nat) : list Z :=
  map (fun i => nth (i mod length l)%nat l 0) (seq 0 n).

Section Reach.
Context `{Music21}.

(** The music21 calls for this key and scale type, when they all return,
    list a pitch whose MIDI number can be brought into the piano range by
    one of the four octave shifts. *)
Definition scale_in_reach (key scale_type : string) : Prop :=
  forall kp s ps,
    pitch_Pitch key = inr kp -> select_scale scale_type kp = inr s ->
    pitches s = inr ps ->
    exists p m, p ∈ ps /\ midi p = inr m /\ -3 <= m <= 120.

End Reach.

(** [max(21, min(108, pitch))] *)
Definition clamp (pitch : Z) : Z := Z.max 21 (Z.min 108 pitch).

(** Note [n] is what the renderer makes at index [i]: the scale note
    selected by [intervals[i % len(intervals)]], moved by a number of
    octaves from the mood's octave range and clamped, with a velocity from
    the mood's velocity range. *)
Definition rendered_from (config : MoodConfig) (intervals scale_notes : list Z)
    (i : Z) (n : Note) : Prop :=
  exists interval base_pitch octave,
    intervals !! Z.to_nat (i mod len intervals) = Some interval
    /\ scale_notes !! Z.to_nat (interval mod len scale_notes) = Some base_pitch
    /\ (octave_range config).1 <= octave <= (octave_range config).2
    /\ pitch n = clamp (base_pitch + octave * 12)
    /\ (velocity_range config).1 <= velocity n <= (velocity_range config).2.

(** The movement word with the two directions exchanged. *)
Definition mirror (movement : string) : string :=
  if decide (movement = "ascending") then "descending"
  else if decide (movement = "descending") then "ascending"
  else movement.

(** [text[len(text)//2:]] *)
Definition second_half (text : string) : list ascii :=
  drop (Z.to_nat (len (list_ascii_of_string text) / 2))
       (list_ascii_of_string text).

(** The values the character scan gives to the letters of a text. *)
Definition letter_values (chars : list ascii) : list Z :=
  map (fun c => ord (lower c) mod 8) (List.filter isalpha chars).

(** * Properties *)

(** ** The services on the stubs *)

Example extract_digits : _extract_intervals "a 12, 3 and 9" 5 = Ok [4; 3; 1; 4; 3].
Proof. vm_compute. reflexivity. Qed.

Example extract_letters : _extract_intervals "abcd" 4 = Ok [3; 4].
Proof. vm_compute. reflexivity. Qed.

Example fallback_energetic : _fallback_pattern "energetic" 4 = Ok [0; 4; 7; 12].
Proof. vm_compute. reflexivity. Qed.

Example stub_c_major :
  @get_scale_notes Stub.music21 "C" "major"
  = [48; 50; 52; 53; 55; 57; 59; 60; 62; 64; 65; 67; 69; 71; 72; 74; 76; 77;
     79; 81; 83; 84; 86; 88; 89; 91; 93; 95; 96].
Proof. vm_compute. reflexivity. Qed.

Example stub_bad_key : @get_scale_notes Stub.music21 "H" "major" = fallback_scale.
Proof. vm_compute. reflexivity. Qed.

Example stub_render :
  (fun r => match r with
            | inr (notes, _) => map (fun n => (start n, end_ n)) notes
            | inl _ => []
            end)
    (@create_arpeggio_from_intervals Stub.random Stub.music21
       "C" "calm" [7; 6; 5; 4] 1 120 (42 : @rng_state Stub.random))
  = [(0, 0 + 1); (0 + 1, 0 + 1 + 1); (0 + 1 + 1, 0 + 1 + 1 + 1);
     (0 + 1 + 1 + 1, 0 + 1 + 1 + 1 + 1)]%Q.
Proof. vm_compute. reflexivity. Qed.

(** ** Style patterns *)

Lemma run_boundary (i : Z) :
  0 <= i ->
  (if decide ((i + 1) mod 8 = 0) then negb (Z.even (i / 8)) else Z.even (i / 8))
  = Z.even ((i + 1) / 8).
Proof.
  intros Hi. destruct (decide ((i + 1) mod 8 = 0)) as [Hz | Hnz].
  - assert ((i + 1) / 8 = Z.succ (i / 8)) as -> by
        (Z.div_mod_to_equations; lia).
    now rewrite Z.even_succ, Z.negb_even.
  - assert ((i + 1) / 8 = i / 8) as -> by (Z.div_mod_to_equations; lia).
    reflexivity.
Qed.

Lemma alternating_loop_from (k a : nat) (pattern : list Z) :
  alternating_loop (map Z.of_nat (seq a k)) pattern (Z.even (Z.of_nat a / 8))
  = pattern ++ map (fun i => if Z.even (i / 8) then i mod 8 else 7 - i mod 8)
                   (map Z.of_nat (seq a k)).
Proof.
  revert a pattern. induction k as [| k IH]; intros a pattern; simpl.
  - now rewrite app_nil_r.
  - rewrite run_boundary by lia.
    replace (Z.of_nat a + 1) with (Z.of_nat (S a)) by lia.
    destruct (Z.even (Z.of_nat a / 8)) eqn:Hrun;
      rewrite IH, <- app_assoc; reflexivity.
Qed.

Lemma alternating_loop_ref (total_notes : Z) :
  alternating_loop (range total_notes) [] true = alternating_ref total_notes.
Proof. exact (alternating_loop_from (Z.to_nat total_notes) 0 []). Qed.

(** ** The mood table is well formed *)

Ltac config_ok_by_table :=
  repeat split; simpl;
  repeat (first [ discriminate | reflexivity | lia
                | apply Forall_cons; split | apply Forall_nil | split ]).

Lemma mood_configs_ok (mood : string) (c : MoodConfig) :
  mood_configs !! mood = Some c -> config_ok c.
Proof.
  intros Hc. unfold mood_configs in Hc.
  apply elem_of_list_to_map_2 in Hc.
  repeat (apply elem_of_cons in Hc as [Hc | Hc];
          [ injection Hc as _ ->; config_ok_by_table | ]).
  now apply elem_of_nil in Hc.
Qed.

Lemma happy_present : is_Some (mood_configs !! "happy").
Proof. vm_compute. eauto. Qed.

Lemma mood_lookup_ok (mood : string) :
  config_ok (dict_get mood_configs mood (mood_configs !!! "happy")).
Proof.
  unfold dict_get. destruct (mood_configs !! mood) as [c |] eqn:Hc.
  - eapply mood_configs_ok, Hc.
  - destruct happy_present as [h Hh].
    rewrite (lookup_total_correct _ _ _ Hh). eapply mood_configs_ok, Hh.
Qed.

(** ** The running time cursor *)

Lemma Qlt_advance (t d : Q) : (0 < d)%Q -> (t < t + d)%Q.
Proof.
  intros Hd. rewrite <- (Qplus_0_r t) at 1. now apply Qplus_lt_r.
Qed.

Lemma timeline_length t ds : length (timeline t ds) = length ds.
Proof. revert t. induction ds as [| d ds IH]; intros t; simpl; auto. Qed.

Lemma timeline_lower_bound ds : forall t x,
  Forall (fun d => (0 < d)%Q) ds -> x ∈ timeline t ds -> (t <= x.1)%Q.
Proof.
  induction ds as [| d ds IH]; intros t x Hpos Hx; simpl in Hx.
  - now apply elem_of_nil in Hx.
  - apply Forall_cons in Hpos as [Hd Hpos].
    apply elem_of_cons in Hx as [-> | Hx]; simpl.
    + apply Qle_refl.
    + apply Qle_trans with (t + d)%Q.
      * apply Qlt_le_weak, Qlt_advance, Hd.
      * now apply IH.
Qed.

Lemma timeline_contiguous ds : forall t i a b,
  timeline t ds !! i = Some a -> timeline t ds !! S i = Some b -> a.2 = b.1.
Proof.
  induction ds as [| d ds IH]; intros t i a b Ha Hb; simpl in *.
  - discriminate.
  - destruct i as [| i]; simpl in *.
    + injection Ha as <-. destruct ds; simpl in Hb; [discriminate |].
      now injection Hb as <-.
    + eapply IH; eassumption.
Qed.

Lemma timeline_positive ds : forall t a,
  Forall (fun d => (0 < d)%Q) ds -> a ∈ timeline t ds -> (a.1 < a.2)%Q.
Proof.
  induction ds as [| d ds IH]; intros t a Hpos Ha; simpl in Ha.
  - now apply elem_of_nil in Ha.
  - apply Forall_cons in Hpos as [Hd Hpos].
    apply elem_of_cons in Ha as [-> | Ha]; simpl.
    + now apply Qlt_advance.
    + eapply IH; eassumption.
Qed.

Lemma timeline_increasing ds : forall t i j a b,
  Forall (fun d => (0 < d)%Q) ds -> (i < j)%nat ->
  timeline t ds !! i = Some a -> timeline t ds !! j = Some b ->
  (a.1 < b.1)%Q.
Proof.
  induction ds as [| d ds IH]; intros t i j a b Hpos Hij Ha Hb; simpl in *.
  - discriminate.
  - pose proof Hpos as Hall. apply Forall_cons in Hpos as [Hd Hpos].
    destruct j as [| j]; [lia |]. destruct i as [| i]; simpl in *.
    + injection Ha as <-. simpl.
      apply Qlt_le_trans with (t + d)%Q; [now apply Qlt_advance |].
      eapply timeline_lower_bound; [exact Hpos |].
      eapply list_elem_of_lookup_2, Hb.
    + eapply IH; [exact Hpos | | eassumption | eassumption]. lia.
Qed.

Lemma timeline_last ds : forall t,
  match last (timeline t ds) with
  | Some a => a.2
  | None => t
  end = fold_left Qplus ds t.
Proof.
  induction ds as [| d ds IH]; intros t; [reflexivity |].
  simpl timeline. simpl fold_left. rewrite <- IH, last_cons.
  destruct (last (timeline (t + d) ds)); reflexivity.
Qed.

Lemma chosen_durations_positive rp indices :
  rp <> [] -> Forall (fun d => (0 < d)%Q) rp ->
  Forall (fun d => (0 < d)%Q) (chosen_durations rp indices).
Proof.
  intros Hne Hpos. unfold chosen_durations. apply Forall_map, Forall_forall.
  intros i _. simpl.
  assert (0 < len rp) by (unfold len; destruct rp; simpl; [done | lia]).
  assert (Hlt : (Z.to_nat (i mod len rp) < length rp)%nat).
  { pose proof (Z.mod_pos_bound i (len rp)). unfold len in *. lia. }
  rewrite Forall_forall in Hpos. apply Hpos, list_elem_of_In, nth_In, Hlt.
Qed.

(** ** The renderer returns, and follows the cursor *)

Lemma bind_inr {A B} (a : A) (k : A -> raises B) : (inr a ≫= k) = k a.
Proof. reflexivity. Qed.

Lemma len_pos {A} (l : list A) : l <> [] -> 0 < len l.
Proof. unfold len. destruct l; simpl; [done | lia]. Qed.

Lemma py_mod_nonzero (a b : Z) : b <> 0 -> py_mod a b = inr (a mod b).
Proof. intros Hb. unfold py_mod. now destruct (decide (b = 0)). Qed.

Lemma py_mod_len {A} (a : Z) (l : list A) :
  l <> [] -> py_mod a (len l) = inr (a mod len l).
Proof. intros Hne. apply py_mod_nonzero. pose proof (len_pos l Hne). lia. Qed.

Lemma py_index_cycle {A} (l : list A) (i : Z) :
  l <> [] ->
  exists x, l !! Z.to_nat (i mod len l) = Some x
            /\ py_index l (i mod len l) = inr x.
Proof.
  intros Hne. pose proof (len_pos l Hne) as Hlen.
  pose proof (Z.mod_pos_bound i (len l) Hlen) as Hbound.
  destruct (lookup_lt_is_Some_2 l (Z.to_nat (i mod len l))) as [x Hx].
  { unfold len in *. lia. }
  exists x. split; [exact Hx |]. unfold py_index. now rewrite Hx.
Qed.

Section RenderLoop.
Context `{PyRandom} `{Music21}.

Lemma random_randint_returns (a b : Z) (g : rng_state) :
  a <= b ->
  exists r g', random_randint a b g = inr (r, g') /\ a <= r <= b.
Proof.
  intros Hab. unfold random_randint. simpl.
  destruct (decide (0 < b + 1 - a)) as [Hw | Hw]; [| lia].
  pose proof (_randbelow_range g (b + 1 - a) Hw) as Hr.
  destruct (_randbelow g (b + 1 - a)) as [r g']. simpl in Hr.
  exists (a + r), g'. split; [reflexivity | lia].
Qed.

Lemma random_choice_returns {A} (l : list A) (g : rng_state) :
  l <> [] ->
  exists x g', random_choice l g = inr (x, g') /\ x ∈ l.
Proof.
  intros Hne. pose proof (len_pos l Hne) as Hlen.
  pose proof (_randbelow_range g (len l) Hlen) as Hr.
  unfold random_choice. destruct l as [| y l]; [done |].
  destruct (_randbelow g (len (y :: l))) as [i g']. simpl in Hr.
  destruct (lookup_lt_is_Some_2 (y :: l) (Z.to_nat i)) as [x Hx].
  { unfold len in *. lia. }
  exists x, g'. unfold py_index. rewrite Hx. split; [reflexivity |].
  eapply list_elem_of_lookup_2, Hx.
Qed.

Lemma render_loop_spec (config : MoodConfig)
    (intervals scale_notes : list Z) (rhythm_pattern : list Q) :
  (octave_range config).1 <= (octave_range config).2 ->
  (velocity_range config).1 <= (velocity_range config).2 ->
  intervals <> [] -> scale_notes <> [] -> rhythm_pattern <> [] ->
  forall indices notes current_time g,
  exists rendered g',
    render_loop config intervals scale_notes rhythm_pattern indices
                notes current_time g = inr (notes ++ rendered, g')
    /\ map times rendered
       = timeline current_time (chosen_durations rhythm_pattern indices).
Proof.
  intros Hoct Hvel Hiv Hsc Hrp.
  induction indices as [| i rest IH]; intros notes t g.
  - exists [], g. simpl. now rewrite app_nil_r.
  - simpl render_loop.
    rewrite (py_mod_len _ _ Hiv), bind_inr.
    destruct (py_index_cycle intervals i Hiv) as (interval & _ & ->).
    rewrite bind_inr.
    rewrite (py_mod_len _ _ Hsc), bind_inr.
    destruct (py_index_cycle scale_notes interval Hsc) as (base & _ & ->).
    rewrite bind_inr.
    destruct (random_randint_returns _ _ g Hoct) as (o & g1 & -> & _).
    rewrite bind_inr.
    rewrite (py_mod_len _ _ Hrp), bind_inr.
    destruct (py_index_cycle rhythm_pattern i Hrp) as (d & Hd & ->).
    rewrite bind_inr.
    destruct (random_randint_returns _ _ g1 Hvel) as (v & g2 & -> & _).
    rewrite bind_inr.
    match goal with
    | |- context [render_loop _ _ _ _ rest (notes ++ [?n]) ?t' g2] =>
        destruct (IH (notes ++ [n]) t' g2) as (rendered & g' & -> & Htimes);
        exists (n :: rendered), g'
    end.
    split.
    + now rewrite <- app_assoc.
    + simpl. rewrite Htimes. unfold times at 1. simpl.
      rewrite nth_lookup, Hd. reflexivity.
Qed.
End RenderLoop.

Lemma lookup_map {A B} (f : A -> B) (l : list A) (i : nat) :
  map f l !! i = f <$> (l !! i).
Proof. exact (list_lookup_fmap f l i). Qed.

Lemma elem_of_map {A B} (f : A -> B) (l : list A) (x : A) :
  x ∈ l -> f x ∈ map f l.
Proof. intros Hx. apply list_elem_of_In, in_map, list_elem_of_In, Hx. Qed.

Lemma last_map {A B} (f : A -> B) (l : list A) :
  last (map f l) = f <$> last l.
Proof. exact (fmap_last f l). Qed.

Lemma range_length (n : Z) : 0 <= n -> len (range n) = n.
Proof.
  intros Hn. unfold len, range. rewrite length_map, length_seq. lia.
Qed.

Lemma notes_per_bar_pos (density : string) : 0 < _get_notes_per_bar density.
Proof.
  unfold _get_notes_per_bar, dict_get.
  destruct (density_map !! density) as [n |] eqn:Hn; [| lia].
  unfold density_map in Hn. apply elem_of_list_to_map_2 in Hn.
  repeat (apply elem_of_cons in Hn as [Hn | Hn]; [injection Hn as _ ->; lia |]).
  now apply elem_of_nil in Hn.
Qed.

Section Renderer.
Context `{PyRandom} `{Music21}.

(** With a non-empty interval list and a non-empty scale the renderer
    returns, and its notes follow the cursor along the durations of the
    one rhythm pattern that [random.choice] picked. *)
Lemma create_arpeggio_spec (key mood : string) (intervals : list Z)
    (num_bars bpm : Z) (g : rng_state) :
  let config := dict_get mood_configs mood (mood_configs !!! "happy") in
  let total_notes := _get_notes_per_bar (note_density config) * num_bars in
  intervals <> [] ->
  get_scale_notes key (scale_type config) <> [] ->
  exists rhythm_pattern g1 notes g',
    random_choice (rhythm_patterns config) g = inr (rhythm_pattern, g1)
    /\ rhythm_pattern ∈ rhythm_patterns config
    /\ create_arpeggio_from_intervals key mood intervals num_bars bpm g
       = inr (notes, g')
    /\ map times notes
       = timeline 0 (chosen_durations rhythm_pattern (range total_notes)).
Proof.
  intros config total_notes Hiv Hsc.
  destruct (mood_lookup_ok mood) as (Hrps & Hall & Hoct & Hvel).
  fold config in Hrps, Hall, Hoct, Hvel.
  destruct (random_choice_returns (rhythm_patterns config) g Hrps)
    as (rp & g1 & Hchoice & Hin).
  pose proof (proj1 (Forall_forall _ _) Hall rp Hin) as [Hrp _].
  destruct (render_loop_spec config intervals
              (get_scale_notes key (scale_type config)) rp
              Hoct Hvel Hiv Hsc Hrp (range total_notes) [] 0%Q g1)
    as (notes & g' & Hloop & Htimes).
  exists rp, g1, notes, g'. repeat split; try assumption.
  unfold create_arpeggio_from_intervals. fold config. fold total_notes.
  rewrite Hchoice, bind_inr. exact Hloop.
Qed.

Lemma chosen_pattern_positive (mood : string) (rp : list Q) (indices : list Z) :
  rp ∈ rhythm_patterns (dict_get mood_configs mood (mood_configs !!! "happy")) ->
  Forall (fun d => (0 < d)%Q) (chosen_durations rp indices).
Proof.
  intros Hin. destruct (mood_lookup_ok mood) as (_ & Hall & _).
  pose proof (proj1 (Forall_forall _ _) Hall rp Hin) as [Hne Hpos].
  now apply chosen_durations_positive.
Qed.
End Renderer.

(** ** Claims about the renderer *)

Section RendererClaims.
Context `{PyRandom} `{Music21}.

(** C4. For a non-empty interval list and a non-empty scale,
  [create_arpeggio_from_intervals] returns a note list that is
  time-contiguous and strictly ordered: each note ends where the next
  one starts, each note ends strictly after it starts, and start times
  strictly increase. *)
Theorem notes_contiguous_and_ordered (key mood : string) (intervals : list Z)
  (num_bars bpm : Z) (g : rng_state) :
intervals <> [] ->
get_scale_notes key
  (scale_type (dict_get mood_configs mood (mood_configs !!! "happy"))) <> [] ->
exists notes g',
  create_arpeggio_from_intervals key mood intervals num_bars bpm g
  = inr (notes, g')
  /\ (forall i a b, notes !! i = Some a -> notes !! S i = Some b ->
                    end_ a = start b)
  /\ (forall a, a ∈ notes -> (start a < end_ a)%Q)
  /\ (forall i j a b, (i < j)%nat ->
                      notes !! i = Some a -> notes !! j = Some b ->
                      (start a < start b)%Q).
Proof.
intros Hiv Hsc.
destruct (create_arpeggio_spec key mood intervals num_bars bpm g Hiv Hsc)
  as (rp & g1 & notes & g' & _ & Hin & Hrun & Htimes).
pose proof (chosen_pattern_positive mood rp
              (range (_get_notes_per_bar
                        (note_density (dict_get mood_configs mood
                                         (mood_configs !!! "happy")))
                      * num_bars)) Hin) as Hpos.
assert (Hat : forall i a, notes !! i = Some a ->
                timeline 0 (chosen_durations rp
                  (range (_get_notes_per_bar
                            (note_density (dict_get mood_configs mood
                                             (mood_configs !!! "happy")))
                          * num_bars))) !! i = Some (times a)).
{ intros i a Ha. rewrite <- Htimes, lookup_map, Ha. reflexivity. }
exists notes, g'. split; [exact Hrun |]. repeat split.
- intros i a b Ha Hb.
  exact (timeline_contiguous _ _ _ _ _ (Hat _ _ Ha) (Hat _ _ Hb)).
- intros a Ha. apply (timeline_positive _ 0%Q (times a) Hpos).
  rewrite <- Htimes. now apply elem_of_map.
- intros i j a b Hij Ha Hb.
  exact (timeline_increasing _ _ _ _ _ _ Hpos Hij (Hat _ _ Ha) (Hat _ _ Hb)).
Qed.

(** C5. For a non-empty interval list, a non-empty scale and a bar count
  that is not negative, the number of rendered notes is exactly
  [notes_per_bar(density(mood)) * num_bars], where notes_per_bar maps
  very_low to 2, low to 4, medium to 8, high to 16 and very_high to 32. *)
Theorem note_count_exact (key mood : string) (intervals : list Z)
  (num_bars bpm : Z) (g : rng_state) :
intervals <> [] ->
get_scale_notes key
  (scale_type (dict_get mood_configs mood (mood_configs !!! "happy"))) <> [] ->
0 <= num_bars ->
(exists notes g',
   create_arpeggio_from_intervals key mood intervals num_bars bpm g
   = inr (notes, g')
   /\ len notes
      = _get_notes_per_bar
          (note_density (dict_get mood_configs mood (mood_configs !!! "happy")))
        * num_bars)
/\ _get_notes_per_bar "very_low" = 2
/\ _get_notes_per_bar "low" = 4
/\ _get_notes_per_bar "medium" = 8
/\ _get_notes_per_bar "high" = 16
/\ _get_notes_per_bar "very_high" = 32.
Proof.
intros Hiv Hsc Hbars. split; [| repeat split; reflexivity].
destruct (create_arpeggio_spec key mood intervals num_bars bpm g Hiv Hsc)
  as (rp & g1 & notes & g' & _ & _ & Hrun & Htimes).
exists notes, g'. split; [exact Hrun |].
apply (f_equal (@length _)) in Htimes.
rewrite length_map, timeline_length in Htimes.
unfold chosen_durations in Htimes. rewrite length_map in Htimes.
unfold len at 1. rewrite Htimes. apply range_length.
pose proof (notes_per_bar_pos
              (note_density (dict_get mood_configs mood
                               (mood_configs !!! "happy")))).
lia.
Qed.

(** C3. [bpm] does not affect the rendered notes: runs that differ only in
  [bpm] return the same outcome (note list and random state); in the
  MIDI container only the declared initial tempo depends on [bpm]; and
  the end time of the arpeggio is the sum of the chosen rhythm-pattern
  durations, whatever [bpm] is. *)
Theorem bpm_only_tags_midi (key mood : string) (intervals : list Z)
  (num_bars : Z) (g : rng_state) :
(forall bpm1 bpm2,
   create_arpeggio_from_intervals key mood intervals num_bars bpm1 g
   = create_arpeggio_from_intervals key mood intervals num_bars bpm2 g)
/\ (forall notes bpm1 bpm2,
      instruments (notes_to_midi notes bpm1 None)
      = instruments (notes_to_midi notes bpm2 None))
/\ (forall notes bpm, initial_tempo (notes_to_midi notes bpm None) = bpm)
/\ (intervals <> [] ->
    get_scale_notes key
      (scale_type (dict_get mood_configs mood (mood_configs !!! "happy")))
      <> [] ->
    exists rhythm_pattern g1 notes g',
      random_choice
        (rhythm_patterns (dict_get mood_configs mood (mood_configs !!! "happy")))
        g = inr (rhythm_pattern, g1)
      /\ (forall bpm,
            create_arpeggio_from_intervals key mood intervals num_bars bpm g
            = inr (notes, g'))
      /\ end_time notes
         = fold_left Qplus
             (chosen_durations rhythm_pattern
                (range (_get_notes_per_bar
                          (note_density (dict_get mood_configs mood
                                           (mood_configs !!! "happy")))
                        * num_bars)))
             0%Q).
Proof.
repeat split; try reflexivity.
intros Hiv Hsc.
destruct (create_arpeggio_spec key mood intervals num_bars 0 g Hiv Hsc)
  as (rp & g1 & notes & g' & Hchoice & _ & Hrun & Htimes).
exists rp, g1, notes, g'. repeat split; [exact Hchoice | intros; exact Hrun |].
rewrite <- timeline_last, <- Htimes, last_map. unfold end_time.
destruct (last notes); reflexivity.
Qed.

End RendererClaims.

Lemma notes_contiguous_and_ordered_witness :
  exists notes g',
    @create_arpeggio_from_intervals Stub.random Stub.music21
      "C" "calm" [7; 6; 5; 4] 1 120 (42 : @rng_state Stub.random)
    = inr (notes, g')
    /\ (forall i a b, notes !! i = Some a -> notes !! S i = Some b ->
                      end_ a = start b)
    /\ (forall a, a ∈ notes -> (start a < end_ a)%Q)
    /\ (forall i j a b, (i < j)%nat ->
                        notes !! i = Some a -> notes !! j = Some b ->
                        (start a < start b)%Q).
Proof.
  apply (@notes_contiguous_and_ordered Stub.random Stub.music21).
  - discriminate.
  - vm_compute. discriminate.
Defined.

Lemma note_count_exact_witness :
  exists notes g',
    @create_arpeggio_from_intervals Stub.random Stub.music21
      "C" "calm" [7; 6; 5; 4] 2 120 (42 : @rng_state Stub.random)
    = inr (notes, g')
    /\ len notes = 8.
Proof.
  refine (proj1 (@note_count_exact Stub.random Stub.music21
                   "C" "calm" [7; 6; 5; 4] 2 120 42 _ _ _)).
  - discriminate.
  - vm_compute. discriminate.
  - lia.
Defined.

Lemma bpm_only_tags_midi_witness :
  exists rhythm_pattern g1 notes g',
    @random_choice Stub.random _
      (rhythm_patterns (dict_get mood_configs "calm" (mood_configs !!! "happy")))
      (42 : @rng_state Stub.random) = inr (rhythm_pattern, g1)
    /\ (forall bpm,
          @create_arpeggio_from_intervals Stub.random Stub.music21
            "C" "calm" [7; 6; 5; 4] 1 bpm 42 = inr (notes, g'))
    /\ end_time notes
       = fold_left Qplus (chosen_durations rhythm_pattern (range (4 * 1))) 0%Q.
Proof.
  refine (proj2 (proj2 (proj2 (@bpm_only_tags_midi Stub.random Stub.music21
                   "C" "calm" [7; 6; 5; 4] 1 42))) _ _).
  - discriminate.
  - vm_compute. discriminate.
Defined.

(** ** The scale resolver *)

Lemma sorted_set_elem (l : list Z) (x : Z) : x ∈ sorted_set l <-> x ∈ l.
Proof.
  unfold sorted_set. rewrite merge_sort_Permutation, elem_of_elements.
  apply elem_of_list_to_set.
Qed.

Lemma sorted_set_NoDup (l : list Z) : NoDup (sorted_set l).
Proof.
  unfold sorted_set. rewrite merge_sort_Permutation. apply NoDup_elements.
Qed.

Lemma strictly_sorted (l : list Z) :
  StronglySorted Z.le l -> NoDup l -> StronglySorted Z.lt l.
Proof.
  induction 1 as [| x l Hsorted IH Hall]; intros Hnd; constructor.
  - apply IH. now apply NoDup_cons in Hnd as [_ ?].
  - apply NoDup_cons in Hnd as [Hx _].
    rewrite Forall_forall in Hall. apply Forall_forall. intros y Hy.
    pose proof (Hall y Hy). assert (x <> y) by (intros ->; exact (Hx Hy)). lia.
Qed.

Lemma sorted_set_ascending (l : list Z) : StronglySorted Z.lt (sorted_set l).
Proof.
  apply strictly_sorted; [| apply sorted_set_NoDup].
  unfold sorted_set. apply StronglySorted_merge_sort; apply _.
Qed.

Lemma fallback_scale_ascending : StronglySorted Z.lt fallback_scale.
Proof. unfold fallback_scale. repeat constructor; lia. Qed.

Lemma reach_octave (m : Z) :
  -3 <= m <= 120 ->
  exists octave, octave ∈ [-1; 0; 1; 2] /\ 21 <= m + octave * 12 <= 108.
Proof.
  intros Hm.
  assert (Hoctaves : forall o, In o [-1; 0; 1; 2] -> o ∈ [-1; 0; 1; 2])
    by (intros o; apply list_elem_of_In).
  destruct (decide (m <= 84)) as [Hlow | Hhigh].
  - destruct (decide (21 <= m)).
    + exists 0. split; [apply Hoctaves; simpl; tauto | lia].
    + exists 2. split; [apply Hoctaves; simpl; tauto | lia].
  - destruct (decide (m <= 108)).
    + exists 0. split; [apply Hoctaves; simpl; tauto | lia].
    + exists (-1). split; [apply Hoctaves; simpl; tauto | lia].
Qed.

Lemma fallback_scale_NoDup : NoDup fallback_scale.
Proof. apply (bool_decide_unpack _). vm_compute. exact I. Qed.

Section ScaleClaims.
Context `{Music21}.

Lemma scan_pitches_spec (ps : list Pitch) (octave : Z) :
  forall acc r, scan_pitches ps octave acc = inr r ->
  forall x, x ∈ r <->
    x ∈ acc \/ exists p m, p ∈ ps /\ midi p = inr m
                           /\ x = m + octave * 12 /\ 21 <= x <= 108.
Proof.
  induction ps as [| p ps IH]; intros acc r Hr x; simpl in Hr.
  - injection Hr as <-. split; [auto |].
    intros [Hx | (p & m & Hp & _)]; [exact Hx |]. now apply elem_of_nil in Hp.
  - destruct (midi p) as [e | m] eqn:Hm; [discriminate |].
    rewrite bind_inr in Hr.
    destruct (decide (21 <= m + octave * 12 <= 108)) as [Hin | Hout];
      rewrite (IH _ _ Hr x); clear IH Hr.
    + rewrite elem_of_app, list_elem_of_singleton. split.
      * intros [[Hx | ->] | (q & n & Hq & Hn & Hxn)]; [auto | |].
        -- right. exists p, m. split; [left |]; auto.
        -- right. exists q, n. split; [now right |]; auto.
      * intros [Hx | (q & n & Hq & Hn & -> & Hrange)]; [auto |].
        apply elem_of_cons in Hq as [-> | Hq].
        -- left. right. congruence.
        -- right. exists q, n. auto.
    + split.
      * intros [Hx | (q & n & Hq & Hn & Hxn)]; [auto |].
        right. exists q, n. split; [now right |]; auto.
      * intros [Hx | (q & n & Hq & Hn & -> & Hrange)]; [auto |].
        apply elem_of_cons in Hq as [-> | Hq].
        -- exfalso. apply Hout. congruence.
        -- right. exists q, n. auto.
Qed.

Lemma scan_octaves_spec (s : Scale) (octaves : list Z) :
  forall acc r, scan_octaves s octaves acc = inr r ->
  forall x, x ∈ r <->
    x ∈ acc \/ exists ps octave p m,
                 pitches s = inr ps /\ octave ∈ octaves /\ p ∈ ps
                 /\ midi p = inr m /\ x = m + octave * 12 /\ 21 <= x <= 108.
Proof.
  induction octaves as [| octave rest IH]; intros acc r Hr x; simpl in Hr.
  - injection Hr as <-. split; [auto |].
    intros [Hx | (ps & o & p & m & _ & Ho & _)]; [exact Hx |].
    now apply elem_of_nil in Ho.
  - destruct (pitches s) as [e | ps] eqn:Hps; [discriminate |].
    rewrite bind_inr in Hr.
    destruct (scan_pitches ps octave acc) as [e | acc'] eqn:Hacc; [discriminate |].
    rewrite bind_inr in Hr.
    rewrite (IH _ _ Hr x), (scan_pitches_spec _ _ _ _ Hacc x). clear IH Hr Hacc.
    split.
    + intros [[Hx | (p & m & Hp & Hm & Hxm)] | (ps' & o & p & m & Hps' & Ho & Hrest)].
      * auto.
      * right. exists ps, octave, p, m. split; [reflexivity |].
        split; [left |]; auto.
      * right. exists ps', o, p, m. split; [exact Hps' |].
        split; [now right |]; auto.
    + intros [Hx | (ps' & o & p & m & Hps' & Ho & Hp & Hrest)]; [auto |].
      injection Hps' as <-.
      apply elem_of_cons in Ho as [-> | Ho].
      * left. right. exists p, m. auto.
      * right. exists ps, o, p, m. auto.
Qed.

Lemma get_scale_notes_cases (key scale_type : string) :
  (exists e, get_scale_notes_try key scale_type = inl e
             /\ get_scale_notes key scale_type = fallback_scale)
  \/ (exists kp s ps raw,
        pitch_Pitch key = inr kp /\ select_scale scale_type kp = inr s
        /\ pitches s = inr ps
        /\ scan_octaves s [-1; 0; 1; 2] [] = inr raw
        /\ get_scale_notes key scale_type = sorted_set raw).
Proof.
  unfold get_scale_notes, get_scale_notes_try.
  destruct (pitch_Pitch key) as [e | kp] eqn:Hkp; [left; eauto |].
  rewrite bind_inr.
  destruct (select_scale scale_type kp) as [e | s] eqn:Hs; [left; eauto |].
  rewrite bind_inr.
  destruct (scan_octaves s [-1; 0; 1; 2] []) as [e | raw] eqn:Hraw;
    [left; eauto |].
  right. exists kp, s.
  assert (exists ps, pitches s = inr ps) as [ps Hps].
  { simpl in Hraw. destruct (pitches s); [discriminate | eauto]. }
  exists ps, raw. auto.
Qed.

(** C6. For every key and scale type [get_scale_notes] returns a list (it
    is total: a raised exception is replaced by the fallback scale) that
    is strictly ascending, free of duplicates and within [21, 108]; when
    the [try] block raises the list is
    [60, 62, 64, 65, 67, 69, 71, 72]; and the list is non-empty whenever
    the scale that music21 builds has a pitch within reach of the piano
    range. *)
Theorem scale_notes_resolved (key scale_type : string) :
  StronglySorted Z.lt (get_scale_notes key scale_type)
  /\ NoDup (get_scale_notes key scale_type)
  /\ Forall (fun m => 21 <= m <= 108) (get_scale_notes key scale_type)
  /\ (forall e, get_scale_notes_try key scale_type = inl e ->
                get_scale_notes key scale_type = fallback_scale)
  /\ (scale_in_reach key scale_type -> get_scale_notes key scale_type <> []).
Proof.
  destruct (get_scale_notes_cases key scale_type)
    as [(e & Htry & ->) | (kp & s & ps & raw & Hkp & Hs & Hps & Hraw & Hnotes)].
  - repeat split.
    + apply fallback_scale_ascending.
    + apply fallback_scale_NoDup.
    + unfold fallback_scale. repeat constructor; lia.
    + discriminate.
  - assert (Htry : get_scale_notes_try key scale_type = inr (sorted_set raw)).
    { unfold get_scale_notes_try.
      now rewrite Hkp, bind_inr, Hs, bind_inr, Hraw, bind_inr. }
    rewrite Hnotes. repeat split.
    + apply sorted_set_ascending.
    + apply sorted_set_NoDup.
    + apply Forall_forall. intros x Hx.
      apply (proj1 (sorted_set_elem _ _)) in Hx.
      apply (proj1 (scan_octaves_spec _ _ _ _ Hraw x)) in Hx
        as [Hx | (_ & _ & _ & _ & _ & _ & _ & _ & _ & Hrange)];
        [now apply elem_of_nil in Hx | exact Hrange].
    + intros e He. congruence.
    + intros Hreach Hempty.
      destruct (Hreach kp s ps Hkp Hs Hps) as (p & m & Hp & Hm & Hrange).
      destruct (reach_octave m Hrange) as (octave & Ho & Hin).
      assert (Hx : m + octave * 12 ∈ sorted_set raw).
      { apply sorted_set_elem, (scan_octaves_spec _ _ _ _ Hraw).
        right. exists ps, octave, p, m. auto 10. }
      rewrite Hempty in Hx. now apply elem_of_nil in Hx.
Qed.

End ScaleClaims.

(** ** Cyclic repetition *)

Lemma length_cyclic_prefix l n : length (cyclic_prefix l n) = n.
Proof. unfold cyclic_prefix. now rewrite length_map, length_seq. Qed.

Lemma lookup_cyclic_prefix_lt l n i :
  (i < n)%nat -> cyclic_prefix l n !! i = Some (nth (i mod length l)%nat l 0).
Proof.
  intros Hi. unfold cyclic_prefix. now rewrite lookup_map, lookup_seq_lt.
Qed.

Lemma lookup_cyclic_prefix_ge l n i :
  (n <= i)%nat -> cyclic_prefix l n !! i = None.
Proof.
  intros Hi. apply lookup_ge_None. now rewrite length_cyclic_prefix.
Qed.

Lemma take_cyclic_prefix l j m :
  take j (cyclic_prefix l m) = cyclic_prefix l (min j m).
Proof. unfold cyclic_prefix. now rewrite firstn_map, take_seq. Qed.

Lemma cyclic_prefix_period l : cyclic_prefix l (length l) = l.
Proof.
  apply list_eq. intros i. destruct (decide (i < length l)%nat) as [Hi | Hi].
  - rewrite lookup_cyclic_prefix_lt, Nat.mod_small by exact Hi.
    destruct (lookup_lt_is_Some_2 l i Hi) as [x Hx].
    now rewrite Hx, (nth_lookup_Some _ _ _ _ Hx).
  - rewrite lookup_cyclic_prefix_ge by lia. symmetry. apply lookup_ge_None. lia.
Qed.

Lemma cyclic_prefix_app l k b :
  cyclic_prefix l (k * length l + b)
  = cyclic_prefix l (k * length l) ++ cyclic_prefix l b.
Proof.
  apply list_eq. intros i.
  destruct (decide (i < k * length l)%nat) as [Hlow | Hhigh].
  - rewrite lookup_app_l by (rewrite length_cyclic_prefix; exact Hlow).
    now rewrite !lookup_cyclic_prefix_lt by lia.
  - rewrite lookup_app_r by (rewrite length_cyclic_prefix; lia).
    rewrite length_cyclic_prefix.
    destruct (decide (i < k * length l + b)%nat) as [Hi | Hi].
    + rewrite !lookup_cyclic_prefix_lt by lia.
      replace i with (i - k * length l + k * length l)%nat at 1 by lia.
      now rewrite Nat.Div0.mod_add.
    + now rewrite !lookup_cyclic_prefix_ge by lia.
Qed.

(** ** The two [while] loops return *)

Lemma py_take_nonneg {A} (n : Z) (l : list A) :
  0 <= n -> py_take n l = take (Z.to_nat n) l.
Proof. intros Hn. unfold py_take. now destruct (decide (0 <= n)). Qed.

(** [extend_loop] keeps a whole number of copies of the base pattern and
    leaves through its guard. *)
Lemma extend_loop_spec (base : list Z) (num_notes : Z) :
  base <> [] ->
  forall fuel k,
    (Z.to_nat num_notes <= fuel + k * length base)%nat ->
    exists k',
      extend_loop fuel (cyclic_prefix base (k * length base)) base num_notes
      = Ok (cyclic_prefix base (k' * length base))
      /\ num_notes <= Z.of_nat (k' * length base).
Proof.
  intros Hne. assert (0 < length base)%nat by (destruct base; simpl; [done | lia]).
  induction fuel as [| fuel IH]; intros k Hfuel; simpl;
    unfold len; rewrite length_cyclic_prefix;
    destruct (decide (Z.of_nat (k * length base) < num_notes)) as [Hlt | Hge].
  - lia.
  - exists k. split; [reflexivity | lia].
  - replace (cyclic_prefix base (k * length base) ++ base)
      with (cyclic_prefix base (S k * length base)).
    + apply IH. lia.
    + replace (S k * length base)%nat with (k * length base + length base)%nat
        by lia.
      now rewrite cyclic_prefix_app, cyclic_prefix_period.
  - exists k. split; [reflexivity | lia].
Qed.

(** [_fallback_pattern] returns the cyclic repetition of the mood's base
    pattern, cut to [num_notes]. *)
Lemma fallback_pattern_cyclic (mood : string) (num_notes : Z) :
  dict_get patterns mood [0; 2; 4; 5; 7] <> [] ->
  _fallback_pattern mood num_notes
  = Ok (cyclic_prefix (dict_get patterns mood [0; 2; 4; 5; 7])
                      (Z.to_nat num_notes)).
Proof.
  intros Hne. unfold _fallback_pattern.
  set (base := dict_get patterns mood [0; 2; 4; 5; 7]) in *.
  destruct (decide (0 <= num_notes)) as [Hn | Hn].
  - destruct (extend_loop_spec base num_notes Hne (Z.to_nat num_notes) 0)
      as (k' & Hloop & Hk'); [lia |].
    simpl in Hloop. change (cyclic_prefix base 0) with (@nil Z) in Hloop.
    rewrite Hloop. simpl. f_equal.
    rewrite py_take_nonneg, take_cyclic_prefix by exact Hn. f_equal. lia.
  - replace (Z.to_nat num_notes) with 0%nat by lia. simpl.
    destruct (decide (len [] < num_notes)) as [Hlt | _];
      [unfold len in Hlt; simpl in Hlt; lia |].
    simpl. unfold py_take. destruct (decide (0 <= num_notes)); [lia |].
    now rewrite take_nil.
Qed.

Lemma patterns_nonempty (mood : string) :
  dict_get patterns mood [0; 2; 4; 5; 7] <> [].
Proof.
  unfold dict_get. destruct (patterns !! mood) as [p |] eqn:Hp; [| discriminate].
  unfold patterns in Hp. apply elem_of_list_to_map_2 in Hp.
  repeat (apply elem_of_cons in Hp as [Hp | Hp];
          [injection Hp as _ ->; discriminate |]).
  now apply elem_of_nil in Hp.
Qed.

(** [pad_loop], started on a non-empty list, keeps a prefix of the cyclic
    repetition of that list: its length doubles until the last round,
    which fills up to [num_notes]. *)
Lemma pad_loop_spec (extracted : list Z) (num_notes : Z) :
  extracted <> [] ->
  forall fuel m,
    (1 <= m)%nat ->
    (exists k, m = (k * length extracted)%nat) \/ num_notes <= Z.of_nat m ->
    (Z.to_nat num_notes <= fuel + m)%nat ->
    exists m',
      pad_loop fuel (cyclic_prefix extracted m) num_notes
      = Ok (cyclic_prefix extracted m')
      /\ num_notes <= Z.of_nat m'.
Proof.
  intros Hne.
  induction fuel as [| fuel IH]; intros m Hm Hshape Hfuel; simpl;
    unfold len; rewrite length_cyclic_prefix;
    destruct (decide (Z.of_nat m < num_notes)) as [Hlt | Hge].
  - lia.
  - exists m. split; [reflexivity | lia].
  - destruct Hshape as [[k ->] | Hfull]; [| lia].
    rewrite py_take_nonneg, take_cyclic_prefix, <- cyclic_prefix_app by lia.
    apply IH; [lia | | lia].
    destruct (decide (k * length extracted
                      <= Z.to_nat (num_notes - Z.of_nat (k * length extracted)))%nat).
    + left. exists (2 * k)%nat. lia.
    + right. lia.
  - exists m. split; [reflexivity | lia].
Qed.

(** ** Claims about the pattern generator *)

(** C8. In the digit-run branch, when the text has at least one digit run
    but fewer than [num_notes] of them, [_extract_intervals] returns
    exactly the first [num_notes] elements of the cyclic repetition of the
    extracted mod-8 sequence. *)
Theorem padding_is_cyclic_repetition (text : string) (num_notes : Z) :
  re_findall_digits text <> [] ->
  len (re_findall_digits text) < num_notes ->
  _extract_intervals text num_notes
  = Ok (cyclic_prefix (map (fun m => int m mod 8) (re_findall_digits text))
                      (Z.to_nat num_notes)).
Proof.
  intros Hsome Hfew. unfold _extract_intervals.
  destruct (re_findall_digits text) as [| m ms] eqn:Hruns; [done |].
  set (matches := m :: ms) in *.
  assert (Hall : py_take num_notes matches = matches).
  { rewrite py_take_nonneg by (unfold len in Hfew; lia).
    apply take_ge. unfold len in Hfew. lia. }
  rewrite Hall.
  set (extracted := map (fun m => int m mod 8) matches).
  assert (Hlen : length extracted = length matches) by apply length_map.
  assert (Hne : extracted <> []) by (subst extracted matches; discriminate).
  destruct (pad_loop_spec extracted num_notes Hne (Z.to_nat num_notes)
              (length extracted)) as (m' & Hloop & Hm').
  - rewrite Hlen. subst matches. simpl. lia.
  - left. exists 1%nat. lia.
  - lia.
  - rewrite cyclic_prefix_period in Hloop. rewrite Hloop. simpl. f_equal.
    rewrite py_take_nonneg, take_cyclic_prefix by (unfold len in Hfew; lia).
    f_equal. lia.
Qed.

Lemma padding_is_cyclic_repetition_witness :
  _extract_intervals "a 12, 3 and 9" 8
  = Ok (cyclic_prefix
          (map (fun m => int m mod 8) (re_findall_digits "a 12, 3 and 9"))
          (Z.to_nat 8)).
Proof.
  apply padding_is_cyclic_repetition.
  - vm_compute. discriminate.
  - vm_compute. reflexivity.
Defined.

Example padding_example :
  _extract_intervals "a 12, 3 and 9" 8 = Ok [4; 3; 1; 4; 3; 1; 4; 3].
Proof. vm_compute. reflexivity. Qed.

Lemma cyclic_prefix_Forall (P : Z -> Prop) (l : list Z) (n : nat) :
  l <> [] -> Forall P l -> Forall P (cyclic_prefix l n).
Proof.
  intros Hne Hall. unfold cyclic_prefix. apply Forall_map, Forall_forall.
  intros i _. simpl. rewrite Forall_forall in Hall.
  apply Hall, list_elem_of_In, nth_In, Nat.mod_upper_bound.
  now destruct l.
Qed.

Lemma pad_loop_returns (extracted : list Z) (num_notes : Z) :
  extracted <> [] ->
  exists l, pad_loop (Z.to_nat num_notes) extracted num_notes = Ok l.
Proof.
  intros Hne.
  destruct (pad_loop_spec extracted num_notes Hne (Z.to_nat num_notes)
              (length extracted)) as (m' & Hloop & _).
  - destruct extracted; simpl; [done | lia].
  - left. exists 1%nat. lia.
  - lia.
  - rewrite cyclic_prefix_period in Hloop. eauto.
Qed.

(** [_extract_intervals] returns or raises: its padding loop never runs
    out of fuel. *)
Lemma extract_intervals_terminates (text : string) (num_notes : Z) :
  _extract_intervals text num_notes <> Diverge.
Proof.
  unfold _extract_intervals.
  destruct (re_findall_digits text) as [| m ms] eqn:Hruns.
  - destruct (scan_chars _ [] num_notes); discriminate.
  - destruct (map (fun m => int m mod 8) (py_take num_notes (m :: ms)))
      as [| x extracted] eqn:Hextracted.
    + assert (Hn : num_notes <= 0).
      { destruct (decide (num_notes <= 0)) as [| Hpos]; [done |].
        rewrite py_take_nonneg in Hextracted by lia.
        replace (Z.to_nat num_notes) with (S (Z.to_nat (num_notes - 1)))
          in Hextracted by lia.
        discriminate. }
      destruct (Z.to_nat num_notes); simpl;
        destruct (decide (len [] < num_notes)) as [Hlt | _];
        try discriminate; unfold len in Hlt; simpl in Hlt; lia.
    + destruct (pad_loop_returns (x :: extracted) num_notes) as [l ->];
        [discriminate |]. discriminate.
Qed.

Section GeneratorClaims.
Context `{Torch}.

(** The three ways into the fallback: the model raises, the extraction
    raises, or the extraction is empty or shorter than [num_notes // 2]. *)
Lemma falls_back_when_model_raises key mood num_notes temperature ts e :
  (_generate_text (_create_prompt key mood num_notes) temperature ts).1 = inl e ->
  (generate_interval_pattern key mood num_notes temperature ts).1
  = _fallback_pattern mood num_notes.
Proof.
  intros Hraise. unfold generate_interval_pattern.
  destruct (_generate_text _ temperature ts) as [r ts']. simpl in *. subst r.
  simpl. rewrite (fallback_pattern_cyclic _ _ (patterns_nonempty mood)).
  reflexivity.
Qed.

Lemma falls_back_when_extraction_raises key mood num_notes temperature ts text e :
  (_generate_text (_create_prompt key mood num_notes) temperature ts).1 = inr text ->
  _extract_intervals text num_notes = Raise e ->
  (generate_interval_pattern key mood num_notes temperature ts).1
  = _fallback_pattern mood num_notes.
Proof.
  intros Htext Hraise. unfold generate_interval_pattern.
  destruct (_generate_text _ temperature ts) as [r ts']. simpl in *. subst r.
  simpl. rewrite Hraise. simpl.
  rewrite (fallback_pattern_cyclic _ _ (patterns_nonempty mood)).
  reflexivity.
Qed.

Lemma falls_back_when_extraction_short key mood num_notes temperature ts text l :
  (_generate_text (_create_prompt key mood num_notes) temperature ts).1 = inr text ->
  _extract_intervals text num_notes = Ok l ->
  l = [] \/ len l < num_notes / 2 ->
  (generate_interval_pattern key mood num_notes temperature ts).1
  = _fallback_pattern mood num_notes.
Proof.
  intros Htext Hl Hshort. unfold generate_interval_pattern.
  destruct (_generate_text _ temperature ts) as [r ts']. simpl in *. subst r.
  simpl. rewrite Hl. simpl.
  destruct (decide (l = [] \/ len l < num_notes / 2)) as [_ | Hlong]; [| done].
  rewrite (fallback_pattern_cyclic _ _ (patterns_nonempty mood)).
  reflexivity.
Qed.

(** Generation never raises past [generate_interval_pattern], and never
    loops: it returns a list. *)
Lemma generate_interval_pattern_returns key mood num_notes temperature ts :
  exists l, (generate_interval_pattern key mood num_notes temperature ts).1 = Ok l.
Proof.
  pose proof (fallback_pattern_cyclic mood num_notes (patterns_nonempty mood))
    as Hfallback.
  unfold generate_interval_pattern.
  destruct (_generate_text _ temperature ts) as [[e | text] ts']; simpl.
  - rewrite Hfallback. eauto.
  - pose proof (extract_intervals_terminates text num_notes) as Hterm.
    destruct (_extract_intervals text num_notes) as [l | e |]; simpl;
      [| rewrite Hfallback; eauto | done].
    destruct (decide (l = [] \/ len l < num_notes / 2));
      [rewrite Hfallback |]; eauto.
Qed.

(** The fallback itself: exactly [num_notes] values, the cyclic repetition
    of the mood's base pattern. *)
Lemma fallback_pattern_length (mood : string) (num_notes : Z) :
  0 <= num_notes ->
  exists l, _fallback_pattern mood num_notes = Ok l /\ len l = num_notes.
Proof.
  intros Hn. rewrite (fallback_pattern_cyclic _ _ (patterns_nonempty mood)).
  eexists. split; [reflexivity |]. unfold len. rewrite length_cyclic_prefix. lia.
Qed.

(** For the moods whose base pattern is made of scale degrees the fallback
    stays within [0, 7]. *)
Lemma fallback_pattern_degrees (mood : string) (num_notes : Z) :
  mood <> "energetic" -> mood <> "ambient" -> mood <> "epic" ->
  mood <> "melancholic" ->
  exists l, _fallback_pattern mood num_notes = Ok l
            /\ Forall (fun x => 0 <= x <= 7) l.
Proof.
  intros He Ha Hp Hm.
  rewrite (fallback_pattern_cyclic _ _ (patterns_nonempty mood)).
  eexists. split; [reflexivity |].
  apply cyclic_prefix_Forall; [apply patterns_nonempty |].
  unfold dict_get. destruct (patterns !! mood) as [p |] eqn:Hlook.
  - unfold patterns in Hlook. apply elem_of_list_to_map_2 in Hlook.
    repeat (apply elem_of_cons in Hlook as [Hlook | Hlook];
            [injection Hlook as -> ->;
             first [ congruence | repeat constructor; lia ] |]).
    now apply elem_of_nil in Hlook.
  - repeat constructor; lia.
Qed.

(** C1, at the failing input: a request for mood [energetic] and one bar
    asks for 32 values; when the model raises,
    [generate_interval_pattern] returns four copies of
    [0, 4, 7, 12, 7, 4, 0, -5], which is not within [0, 7]. *)
Theorem fallback_energetic_leaves_degrees key temperature ts e :
  (_generate_text (_create_prompt key "energetic" 32) temperature ts).1 = inl e ->
  (generate_interval_pattern key "energetic" 32 temperature ts).1
  = Ok [0; 4; 7; 12; 7; 4; 0; -5; 0; 4; 7; 12; 7; 4; 0; -5;
        0; 4; 7; 12; 7; 4; 0; -5; 0; 4; 7; 12; 7; 4; 0; -5]
  /\ ~ Forall (fun x => 0 <= x <= 7)
               [0; 4; 7; 12; 7; 4; 0; -5; 0; 4; 7; 12; 7; 4; 0; -5;
                0; 4; 7; 12; 7; 4; 0; -5; 0; 4; 7; 12; 7; 4; 0; -5].
Proof.
  intros Hraise. split.
  - rewrite (falls_back_when_model_raises _ _ _ _ _ _ Hraise). reflexivity.
  - intros Hall. apply Forall_cons in Hall as [_ Hall].
    apply Forall_cons in Hall as [_ Hall].
    apply Forall_cons in Hall as [_ Hall].
    apply Forall_cons in Hall as [Htwelve _]. lia.
Qed.

(** C10, amended. When the text has no digit run and the character scan of
    its second half collects a non-empty list of [k] values with
    [num_notes // 2 <= k < num_notes], [generate_interval_pattern] returns
    exactly those values, a list shorter than [num_notes]. *)
Theorem short_scan_returned_unpadded key mood num_notes temperature ts text l :
  (_generate_text (_create_prompt key mood num_notes) temperature ts).1 = inr text ->
  re_findall_digits text = [] ->
  scan_chars (drop (Z.to_nat (len (list_ascii_of_string text) / 2))
                   (list_ascii_of_string text)) [] num_notes = inr l ->
  l <> [] ->
  num_notes / 2 <= len l < num_notes ->
  (generate_interval_pattern key mood num_notes temperature ts).1 = Ok l
  /\ len l < num_notes.
Proof.
  intros Htext Hruns Hscan Hne Hk. split; [| lia].
  unfold generate_interval_pattern.
  destruct (_generate_text _ temperature ts) as [r ts']. simpl in *. subst r.
  simpl. unfold _extract_intervals. rewrite Hruns, Hscan. simpl.
  destruct l as [| x l]; [done |].
  rewrite py_take_nonneg, take_ge by (unfold len in *; lia). simpl.
  destruct (decide (x :: l = [] \/ len (x :: l) < num_notes / 2)) as [[? | ?] | _];
    [done | lia | reflexivity].
Qed.

End GeneratorClaims.

Lemma fallback_energetic_leaves_degrees_witness :
  (@generate_interval_pattern Stub.torch "C" "energetic" 32 (8 # 10)
     (3 : @torch_state Stub.torch)).1
  = Ok [0; 4; 7; 12; 7; 4; 0; -5; 0; 4; 7; 12; 7; 4; 0; -5;
        0; 4; 7; 12; 7; 4; 0; -5; 0; 4; 7; 12; 7; 4; 0; -5]
  /\ ~ Forall (fun x => 0 <= x <= 7)
               [0; 4; 7; 12; 7; 4; 0; -5; 0; 4; 7; 12; 7; 4; 0; -5;
                0; 4; 7; 12; 7; 4; 0; -5; 0; 4; 7; 12; 7; 4; 0; -5].
Proof.
  apply (@fallback_energetic_leaves_degrees Stub.torch "C" (8 # 10) 3 ModelError).
  vm_compute. reflexivity.
Defined.

Lemma short_scan_returned_unpadded_witness :
  (@generate_interval_pattern Stub.torch "C" "happy" 4 (8 # 10)
     (1 : @torch_state Stub.torch)).1 = Ok [3; 4]
  /\ len [3; 4] < 4.
Proof.
  apply (@short_scan_returned_unpadded Stub.torch "C" "happy" 4 (8 # 10) 1 "abcd").
  - vm_compute. reflexivity.
  - vm_compute. reflexivity.
  - vm_compute. reflexivity.
  - discriminate.
  - vm_compute. split; [discriminate | reflexivity].
Defined.

(** C10 as stated fails when the scan collects nothing: for one note and a
    text without digits or letters the scan yields the empty list, which
    meets [1 // 2 <= 0 < 1], yet the result is the one-note fallback. *)
Lemma empty_scan_falls_back :
  (@_generate_text Stub.torch (_create_prompt "C" "happy" 1) (8 # 10)
     (2 : @torch_state Stub.torch)).1 = inr "!!"
  /\ re_findall_digits "!!" = []
  /\ scan_chars (drop (Z.to_nat (len (list_ascii_of_string "!!") / 2))
                      (list_ascii_of_string "!!")) [] 1 = inr []
  /\ 1 / 2 <= len (@nil Z) < 1
  /\ (@generate_interval_pattern Stub.torch "C" "happy" 1 (8 # 10)
        (2 : @torch_state Stub.torch)).1 = Ok [0]
  /\ (@generate_interval_pattern Stub.torch "C" "happy" 1 (8 # 10)
        (2 : @torch_state Stub.torch)).1 <> Ok [].
Proof.
  repeat split; try (vm_compute; reflexivity); vm_compute; discriminate.
Qed.

Lemma scale_notes_resolved_witness :
  @get_scale_notes Stub.music21 "C" "major" <> [].
Proof.
  apply (@scale_notes_resolved Stub.music21 "C" "major").
  intros kp s ps Hkp Hs Hps. vm_compute in Hkp, Hs.
  injection Hkp as <-. injection Hs as <-. simpl in Hps. injection Hps as <-.
  exists 60, 60. split; [left |]. split; [reflexivity | lia].
Defined.

(** ** Unknown moods *)

(** The three mood-keyed tables have the same keys. *)
Lemma unknown_everywhere (mood : string) :
  mood_configs !! mood = None ->
  patterns !! mood = None /\ mood_descriptions !! mood = None.
Proof.
  intros Hnone. unfold mood_configs in Hnone.
  apply not_elem_of_list_to_map_2 in Hnone.
  split; apply not_elem_of_list_to_map_1; exact Hnone.
Qed.

Section MoodClaims.
Context `{PyRandom} `{Music21}.

(** C2, amended.  For an unknown mood the MoodConfig lookup yields the
    [happy] configuration at each place it is made: the renderer, the style
    patterns and the description (whose scale word is [major]).  The two
    tables of the pattern generator do not follow [happy]: the fallback
    interval table defaults to [0, 2, 4, 5, 7] and the prompt phrase to
    [musical]. *)
Theorem unknown_mood_defaults (mood : string) :
  mood_configs !! mood = None ->
  dict_get mood_configs mood (mood_configs !!! "happy")
  = dict_get mood_configs "happy" (mood_configs !!! "happy")
  /\ (forall key intervals num_bars bpm g,
        create_arpeggio_from_intervals key mood intervals num_bars bpm g
        = create_arpeggio_from_intervals key "happy" intervals num_bars bpm g)
  /\ (forall style key num_bars g,
        create_pattern_from_style style key mood num_bars g
        = create_pattern_from_style style key "happy" num_bars g)
  /\ (forall intervals,
        get_mood_description mood intervals
        = capitalize mood +:+ " major arpeggio with "
            +:+ _analyze_pattern_movement intervals +:+ " movement")
  /\ (forall num_notes,
        _fallback_pattern mood num_notes
        = Ok (cyclic_prefix [0; 2; 4; 5; 7] (Z.to_nat num_notes)))
  /\ (forall key num_notes,
        _create_prompt key mood num_notes
        = "Music composition in " +:+ key +:+ " with musical character."
            +:+ String (chr 10) "Arpeggio pattern: ").
Proof.
  intros Hnone. destruct (unknown_everywhere mood Hnone) as [Hpat Hdesc].
  assert (Hcfg : dict_get mood_configs mood (mood_configs !!! "happy")
                 = dict_get mood_configs "happy" (mood_configs !!! "happy")).
  { unfold dict_get at 1. rewrite Hnone. reflexivity. }
  split; [exact Hcfg |]. repeat split.
  - intros. unfold create_arpeggio_from_intervals. now rewrite Hcfg.
  - intros. unfold create_pattern_from_style. now rewrite Hcfg.
  - intros. unfold get_mood_description. rewrite Hcfg. reflexivity.
  - intros. rewrite (fallback_pattern_cyclic _ _ (patterns_nonempty mood)).
    unfold dict_get. now rewrite Hpat.
  - intros. unfold _create_prompt, dict_get. now rewrite Hdesc.
Qed.

End MoodClaims.

Lemma unknown_mood_defaults_witness :
  dict_get mood_configs "jazzy" (mood_configs !!! "happy")
  = dict_get mood_configs "happy" (mood_configs !!! "happy")
  /\ (forall num_notes,
        _fallback_pattern "jazzy" num_notes
        = Ok (cyclic_prefix [0; 2; 4; 5; 7] (Z.to_nat num_notes))).
Proof.
  destruct (@unknown_mood_defaults Stub.random Stub.music21 "jazzy")
    as (Hcfg & _ & _ & _ & Hfallback & _).
  - vm_compute. reflexivity.
  - split; [exact Hcfg | exact Hfallback].
Defined.

(** C2 as stated fails at the fallback interval table: an unknown mood
    does not get the [happy] pattern. *)
Lemma fallback_table_ignores_happy :
  mood_configs !! "jazzy" = None
  /\ _fallback_pattern "jazzy" 6 = Ok [0; 2; 4; 5; 7; 0]
  /\ _fallback_pattern "happy" 6 = Ok [0; 2; 4; 7; 4; 2]
  /\ _fallback_pattern "jazzy" 6 <> _fallback_pattern "happy" 6.
Proof.
  repeat split; try (vm_compute; reflexivity). vm_compute. discriminate.
Qed.

(** ** Claims about style patterns and seeding *)

Section StyleClaims.
Context `{PyRandom}.

(** C9. For every mood and bar count, hence every [total_notes] that
    [create_pattern_from_style] computes, the three deterministic styles
    return the reference sequences and leave the random state alone; for
    mood [calm], style [descending] and one bar the result is
    [7, 6, 5, 4]. *)
Theorem style_patterns_are_reference (key mood : string) (num_bars : Z)
    (g : rng_state) :
  let total_notes :=
    _get_notes_per_bar
      (note_density (dict_get mood_configs mood (mood_configs !!! "happy")))
    * num_bars in
  create_pattern_from_style "ascending" key mood num_bars g
  = inr (ascending_ref total_notes, g)
  /\ create_pattern_from_style "descending" key mood num_bars g
     = inr (descending_ref total_notes, g)
  /\ create_pattern_from_style "alternating" key mood num_bars g
     = inr (alternating_ref total_notes, g)
  /\ create_pattern_from_style "descending" key "calm" 1 g
     = inr ([7; 6; 5; 4], g).
Proof.
  intros total_notes. repeat split.
  unfold create_pattern_from_style. fold total_notes. simpl.
  now rewrite alternating_loop_ref.
Qed.

End StyleClaims.

Section SeedClaims.
Context `{PyRandom} `{Music21} `{Torch} `{PrettyMidiWriter}.

Lemma seed_all_forgets (seed : Z) (w1 w2 : World) :
  seed_all (Some seed) w1 = seed_all (Some seed) w2.
Proof. reflexivity. Qed.

(** C7. With a seed, the outcome of [generate_arpeggio] does not depend on
    the ambient random state it starts from: two calls with the same
    parameters and seed give the same MIDI object, the same note list and
    the same serialised bytes. *)
Theorem seeded_generation_reproducible (key mood : string) (bpm num_bars : Z)
    (pattern_style : string) (seed : Z) (w1 w2 : World) :
  generate_arpeggio key mood bpm num_bars pattern_style (Some seed) w1
  = generate_arpeggio key mood bpm num_bars pattern_style (Some seed) w2
  /\ generated_notes key mood bpm num_bars pattern_style (Some seed) w1
     = generated_notes key mood bpm num_bars pattern_style (Some seed) w2
  /\ generate_midi_bytes key mood bpm num_bars pattern_style (Some seed) w1
     = generate_midi_bytes key mood bpm num_bars pattern_style (Some seed) w2.
Proof.
  assert (Hsame :
    generate_arpeggio key mood bpm num_bars pattern_style (Some seed) w1
    = generate_arpeggio key mood bpm num_bars pattern_style (Some seed) w2).
  { unfold generate_arpeggio. now rewrite (seed_all_forgets seed w1 w2). }
  unfold generated_notes, generate_midi_bytes. now rewrite Hsame.
Qed.

End SeedClaims.

(** A seeded run on the stubs returns, and an unseeded run depends on the
    ambient state. *)
Example seeded_run :
  @generated_notes Stub.random Stub.music21 Stub.torch
    "C" "calm" 120 1 "descending" (Some 42) (Stub.world 1 2 3)
  = Ok [ {| note_velocity := 58; note_pitch := 60; note_start := 0;
            note_end := 1 |};
         {| note_velocity := 75; note_pitch := 59; note_start := 1;
            note_end := 2 |};
         {| note_velocity := 58; note_pitch := 57; note_start := 2;
            note_end := 3 |};
         {| note_velocity := 75; note_pitch := 55; note_start := 3;
            note_end := 4 |} ]%Q.
Proof. vm_compute. reflexivity. Qed.

Example unseeded_run_depends_on_state :
  @generated_notes Stub.random Stub.music21 Stub.torch
    "C" "calm" 120 1 "descending" None (Stub.world 1 2 3)
  <> @generated_notes Stub.random Stub.music21 Stub.torch
       "C" "calm" 120 1 "descending" None (Stub.world 2 2 3).
Proof. vm_compute. discriminate. Qed.

Example seeded_bytes :
  @generate_midi_bytes Stub.random Stub.music21 Stub.torch Stub.writer
    "C" "calm" 120 1 "descending" (Some 42) (Stub.world 1 2 3)
  = Ok [Byte.x78; Byte.x3c; Byte.x3b; Byte.x39; Byte.x37].
Proof. vm_compute. reflexivity. Qed.

Example seeded_ai_run :
  @generated_notes Stub.random Stub.music21 Stub.torch
    "A" "dark" 90 1 "ai-generated" (Some 7) (Stub.world 1 2 3)
  = @generated_notes Stub.random Stub.music21 Stub.torch
      "A" "dark" 90 1 "ai-generated" (Some 7) (Stub.world 5 6 8).
Proof. vm_compute. reflexivity. Qed.

(** * Further properties of the services *)

(** ** The renderer: pitches, velocities and failures *)

Lemma clamp_range (x : Z) : 21 <= clamp x <= 108.
Proof. unfold clamp. lia. Qed.

Lemma range_pos_cons (n : Z) : 0 < n -> exists rest, range n = 0 :: rest.
Proof.
  intros Hn. unfold range.
  replace (Z.to_nat n) with (S (Z.to_nat (n - 1))) by lia.
  simpl. eauto.
Qed.

Lemma range_nonpos (n : Z) : n <= 0 -> range n = [].
Proof. intros Hn. unfold range. now replace (Z.to_nat n) with 0%nat by lia. Qed.

Section RendererExtras.
Context `{PyRandom} `{Music21}.

Lemma render_loop_notes (config : MoodConfig)
    (intervals scale_notes : list Z) (rhythm_pattern : list Q) :
  (octave_range config).1 <= (octave_range config).2 ->
  (velocity_range config).1 <= (velocity_range config).2 ->
  intervals <> [] -> scale_notes <> [] -> rhythm_pattern <> [] ->
  forall indices notes current_time g,
  exists rendered g',
    render_loop config intervals scale_notes rhythm_pattern indices
                notes current_time g = inr (notes ++ rendered, g')
    /\ Forall2 (rendered_from config intervals scale_notes) indices rendered.
Proof.
  intros Hoct Hvel Hiv Hsc Hrp.
  induction indices as [| i rest IH]; intros notes t g.
  - exists [], g. simpl. rewrite app_nil_r. split; [reflexivity | constructor].
  - simpl render_loop.
    rewrite (py_mod_len _ _ Hiv), bind_inr.
    destruct (py_index_cycle intervals i Hiv) as (interval & Hinterval & ->).
    rewrite bind_inr.
    rewrite (py_mod_len _ _ Hsc), bind_inr.
    destruct (py_index_cycle scale_notes interval Hsc) as (base & Hbase & ->).
    rewrite bind_inr.
    destruct (random_randint_returns _ _ g Hoct) as (o & g1 & -> & Ho).
    rewrite bind_inr.
    rewrite (py_mod_len _ _ Hrp), bind_inr.
    destruct (py_index_cycle rhythm_pattern i Hrp) as (d & _ & ->).
    rewrite bind_inr.
    destruct (random_randint_returns _ _ g1 Hvel) as (v & g2 & -> & Hv).
    rewrite bind_inr.
    match goal with
    | |- context [render_loop _ _ _ _ rest (notes ++ [?n]) ?t' g2] =>
        destruct (IH (notes ++ [n]) t' g2) as (rendered & g' & -> & Hall);
        exists (n :: rendered), g'
    end.
    split; [now rewrite <- app_assoc |].
    constructor; [| exact Hall].
    exists interval, base, o. simpl. auto.
Qed.

Lemma create_arpeggio_rendered (key mood : string) (intervals : list Z)
    (num_bars bpm : Z) (g : rng_state) :
  let config := dict_get mood_configs mood (mood_configs !!! "happy") in
  let scale_notes := get_scale_notes key (scale_type config) in
  intervals <> [] ->
  scale_notes <> [] ->
  exists notes g',
    create_arpeggio_from_intervals key mood intervals num_bars bpm g
    = inr (notes, g')
    /\ Forall2 (rendered_from config intervals scale_notes)
               (range (_get_notes_per_bar (note_density config) * num_bars))
               notes.
Proof.
  intros config scale_notes Hiv Hsc.
  destruct (mood_lookup_ok mood) as (Hrps & Hall & Hoct & Hvel).
  fold config in Hrps, Hall, Hoct, Hvel.
  destruct (random_choice_returns (rhythm_patterns config) g Hrps)
    as (rp & g1 & Hchoice & Hin).
  pose proof (proj1 (Forall_forall _ _) Hall rp Hin) as [Hrp _].
  destruct (render_loop_notes config intervals scale_notes rp
              Hoct Hvel Hiv Hsc Hrp
              (range (_get_notes_per_bar (note_density config) * num_bars))
              [] 0%Q g1) as (notes & g' & Hloop & Hnotes).
  exists notes, g'. split; [| exact Hnotes].
  unfold create_arpeggio_from_intervals. fold config. fold scale_notes.
  rewrite Hchoice, bind_inr. exact Hloop.
Qed.

Lemma rendered_from_range config intervals scale_notes i n :
  rendered_from config intervals scale_notes i n ->
  21 <= pitch n <= 108
  /\ (velocity_range config).1 <= velocity n <= (velocity_range config).2.
Proof.
  intros (interval & base & o & _ & _ & _ & Hpitch & Hv).
  rewrite Hpitch. split; [apply clamp_range | exact Hv].
Qed.

(** X1. Every note of a rendered arpeggio is the scale note selected by
    its interval, moved by octaves from the mood's octave range and
    clamped; its pitch lies in [21, 108] and its velocity in the mood's
    velocity range. *)
Theorem rendered_notes_in_range (key mood : string) (intervals : list Z)
    (num_bars bpm : Z) (g : rng_state) :
  let config := dict_get mood_configs mood (mood_configs !!! "happy") in
  let scale_notes := get_scale_notes key (scale_type config) in
  intervals <> [] ->
  scale_notes <> [] ->
  exists notes g',
    create_arpeggio_from_intervals key mood intervals num_bars bpm g
    = inr (notes, g')
    /\ Forall2 (rendered_from config intervals scale_notes)
               (range (_get_notes_per_bar (note_density config) * num_bars))
               notes
    /\ Forall (fun n => 21 <= pitch n <= 108
                        /\ (velocity_range config).1 <= velocity n
                           <= (velocity_range config).2) notes.
Proof.
  intros config scale_notes Hiv Hsc.
  destruct (create_arpeggio_rendered key mood intervals num_bars bpm g Hiv Hsc)
    as (notes & g' & Hrun & Hnotes).
  exists notes, g'. split; [exact Hrun |]. split; [exact Hnotes |].
  fold config scale_notes in Hnotes. clear Hrun.
  induction Hnotes as [| i n idx ns Hn _ IH]; constructor.
  - exact (rendered_from_range _ _ _ _ _ Hn).
  - exact IH.
Qed.

(** X2. With a positive number of bars, an empty interval list or an empty
    scale makes the renderer raise [ZeroDivisionError]. *)
Theorem render_raises_on_empty (key mood : string) (intervals : list Z)
    (num_bars bpm : Z) (g : rng_state) :
  0 < num_bars ->
  intervals = []
  \/ get_scale_notes key
       (scale_type (dict_get mood_configs mood (mood_configs !!! "happy"))) = [] ->
  create_arpeggio_from_intervals key mood intervals num_bars bpm g
  = inl ZeroDivisionError.
Proof.
  intros Hbars Hempty.
  destruct (mood_lookup_ok mood) as (Hrps & _).
  destruct (random_choice_returns _ g Hrps) as (rp & g1 & Hchoice & _).
  unfold create_arpeggio_from_intervals. rewrite Hchoice, bind_inr.
  destruct (range_pos_cons
              (_get_notes_per_bar
                 (note_density (dict_get mood_configs mood
                                  (mood_configs !!! "happy"))) * num_bars))
    as [rest ->].
  { pose proof (notes_per_bar_pos
                  (note_density (dict_get mood_configs mood
                                   (mood_configs !!! "happy")))). lia. }
  simpl render_loop. destruct (decide (intervals = [])) as [-> | Hiv].
  - reflexivity.
  - destruct Hempty as [? | ->]; [done |].
    rewrite (py_mod_len _ _ Hiv), bind_inr.
    destruct (py_index_cycle intervals 0 Hiv) as (interval & _ & ->).
    reflexivity.
Qed.

(** X3. With a bar count of zero or less the renderer returns no notes,
    whatever the interval list (the empty one included); it has drawn the
    rhythm pattern and nothing else. *)
Theorem render_nothing_without_bars (key mood : string) (intervals : list Z)
    (num_bars bpm : Z) (g : rng_state) :
  num_bars <= 0 ->
  exists rhythm_pattern g1,
    random_choice
      (rhythm_patterns (dict_get mood_configs mood (mood_configs !!! "happy")))
      g = inr (rhythm_pattern, g1)
    /\ create_arpeggio_from_intervals key mood intervals num_bars bpm g
       = inr ([], g1).
Proof.
  intros Hbars.
  destruct (mood_lookup_ok mood) as (Hrps & _).
  destruct (random_choice_returns _ g Hrps) as (rp & g1 & Hchoice & _).
  exists rp, g1. split; [exact Hchoice |].
  unfold create_arpeggio_from_intervals. rewrite Hchoice, bind_inr.
  rewrite range_nonpos; [reflexivity |].
  pose proof (notes_per_bar_pos
                (note_density (dict_get mood_configs mood
                                 (mood_configs !!! "happy")))). nia.
Qed.

End RendererExtras.

(** ** Style patterns and their description *)

Lemma mod8_range (i : Z) : 0 <= i mod 8 <= 7.
Proof. pose proof (Z.mod_pos_bound i 8). lia. Qed.

Lemma len_range (n : Z) : len (range n) = Z.max 0 n.
Proof. unfold len, range. rewrite length_map, length_seq. lia. Qed.

Section StyleExtras.
Context `{PyRandom}.

Lemma random_pattern_spec (indices : list Z) :
  forall g, exists xs g',
    random_pattern indices g = inr (xs, g')
    /\ length xs = length indices
    /\ Forall (fun x => 0 <= x <= 7) xs.
Proof.
  induction indices as [| i rest IH]; intros g; simpl.
  - exists [], g. repeat split. constructor.
  - destruct (random_randint_returns 0 7 g) as (x & g1 & -> & Hx); [lia |].
    rewrite bind_inr. destruct (IH g1) as (xs & g' & -> & Hlen & Hall).
    rewrite bind_inr. exists (x :: xs), g'. simpl.
    repeat split; [now rewrite Hlen | now constructor].
Qed.

(** X4. Whatever the style string, [create_pattern_from_style] returns
    [notes_per_bar * num_bars] values (none for a negative product), each
    within [0, 7]; only the style [random] advances the random state. *)
Theorem style_pattern_shape (style key mood : string) (num_bars : Z)
    (g : rng_state) :
  exists pattern g',
    create_pattern_from_style style key mood num_bars g = inr (pattern, g')
    /\ len pattern
       = Z.max 0 (_get_notes_per_bar
                    (note_density (dict_get mood_configs mood
                                     (mood_configs !!! "happy")))
                  * num_bars)
    /\ Forall (fun x => 0 <= x <= 7) pattern
    /\ (style = "random" \/ g' = g).
Proof.
  unfold create_pattern_from_style.
  set (total_notes := _get_notes_per_bar _ * num_bars).
  assert (Hasc : Forall (fun x => 0 <= x <= 7)
                   (map (fun i => i mod 8) (range total_notes))).
  { apply Forall_map, Forall_forall. intros i _. apply mod8_range. }
  assert (Hlen : forall f : Z -> Z, len (map f (range total_notes))
                                    = Z.max 0 total_notes).
  { intros f. unfold len. rewrite length_map. apply len_range. }
  destruct (decide (style = "ascending")); [eauto 10 |].
  destruct (decide (style = "descending")).
  { eexists _, g. repeat split; [apply Hlen | | now right].
    apply Forall_map, Forall_forall. intros i _.
    pose proof (mod8_range i). simpl. lia. }
  destruct (decide (style = "alternating")).
  { rewrite alternating_loop_ref. eexists _, g.
    repeat split; [apply Hlen | | now right].
    apply Forall_map, Forall_forall. intros i _.
    pose proof (mod8_range i). simpl. destruct (Z.even (i / 8)); lia. }
  destruct (decide (style = "random")) as [-> |]; [| eauto 10].
  destruct (random_pattern_spec (range total_notes) g)
    as (xs & g' & -> & Hxs & Hall).
  exists xs, g'. repeat split; [| exact Hall | now left].
  unfold len. rewrite Hxs. apply len_range.
Qed.

(** X5. With at most eight notes the [alternating] style has not yet
    turned: it returns the [ascending] pattern. *)
Theorem alternating_short_is_ascending (key mood : string) (num_bars : Z)
    (g : rng_state) :
  _get_notes_per_bar
    (note_density (dict_get mood_configs mood (mood_configs !!! "happy")))
  * num_bars <= 8 ->
  create_pattern_from_style "alternating" key mood num_bars g
  = create_pattern_from_style "ascending" key mood num_bars g.
Proof.
  intros Hshort. unfold create_pattern_from_style. simpl.
  rewrite alternating_loop_ref. unfold alternating_ref. do 2 f_equal.
  apply map_ext_in. intros i Hi. unfold range in Hi.
  apply in_map_iff in Hi as (j & <- & Hj). apply in_seq in Hj.
  assert (Z.of_nat j / 8 = 0) as -> by (apply Z.div_small; lia).
  reflexivity.
Qed.

End StyleExtras.

(** ** Pattern movement *)

Lemma count_steps_nonneg (cmp : Z -> Z -> bool) (l : list Z) :
  0 <= count_steps cmp l.
Proof.
  induction l as [| x [| y l] IH]; simpl in *; try lia.
  destruct (cmp y x); lia.
Qed.

Lemma count_steps_snoc (cmp : Z -> Z -> bool) (l : list Z) (x : Z) :
  count_steps cmp (l ++ [x])
  = count_steps cmp l
    + match last l with
      | Some y => if cmp x y then 1 else 0
      | None => 0
      end.
Proof.
  induction l as [| a [| b l] IH].
  - reflexivity.
  - simpl. lia.
  - change (count_steps cmp ((a :: b :: l) ++ [x]))
      with ((if cmp b a then 1 else 0) + count_steps cmp ((b :: l) ++ [x])).
    rewrite IH. change (last (a :: b :: l)) with (last (b :: l)).
    simpl count_steps. lia.
Qed.

Lemma count_steps_reverse (cmp : Z -> Z -> bool) (l : list Z) :
  count_steps cmp (reverse l) = count_steps (fun next prev => cmp prev next) l.
Proof.
  induction l as [| x l IH]; [reflexivity |].
  rewrite reverse_cons, count_steps_snoc, IH, last_reverse.
  destruct l as [| y l]; simpl; lia.
Qed.

Lemma count_up_inverted (l : list Z) :
  count_steps (fun next prev => prev <? next) (map (fun x => 7 - x) l)
  = count_steps (fun next prev => next <? prev) l.
Proof.
  induction l as [| x [| y l] IH]; try reflexivity.
  simpl in *. rewrite IH.
  destruct (7 - x <? 7 - y) eqn:H1, (y <? x) eqn:H2; lia.
Qed.

Lemma count_down_inverted (l : list Z) :
  count_steps (fun next prev => next <? prev) (map (fun x => 7 - x) l)
  = count_steps (fun next prev => prev <? next) l.
Proof.
  induction l as [| x [| y l] IH]; try reflexivity.
  simpl in *. rewrite IH.
  destruct (7 - y <? 7 - x) eqn:H1, (x <? y) eqn:H2; lia.
Qed.

(** [b > a * 1.5] on integers. *)
Lemma movement_threshold (a b : Z) :
  (inject_Z a * (3 # 2) < inject_Z b)%Q <-> 3 * a < 2 * b.
Proof. unfold Qlt, Qmult, inject_Z. simpl. lia. Qed.

(** The movement word is decided by the two step counts. *)
Lemma movement_by_counts (l : list Z) :
  2 <= len l ->
  let ascending := count_steps (fun next prev => prev <? next) l in
  let descending := count_steps (fun next prev => next <? prev) l in
  _analyze_pattern_movement l
  = if decide (3 * descending < 2 * ascending) then "ascending"
    else if decide (3 * ascending < 2 * descending) then "descending"
    else "alternating".
Proof.
  intros Hlen ascending descending. unfold _analyze_pattern_movement.
  destruct (decide (len l < 2)); [lia |].
  fold ascending. fold descending.
  destruct (Qlt_le_dec (inject_Z descending * (3 # 2)) (inject_Z ascending))
    as [Hup | Hup].
  - apply movement_threshold in Hup.
    now destruct (decide (3 * descending < 2 * ascending)).
  - assert (~ 3 * descending < 2 * ascending) as Hup'.
    { intros Hlt. apply movement_threshold in Hlt.
      exact (Qlt_not_le _ _ Hlt Hup). }
    destruct (decide (3 * descending < 2 * ascending)); [done |].
    destruct (Qlt_le_dec (inject_Z ascending * (3 # 2)) (inject_Z descending))
      as [Hdown | Hdown].
    + apply movement_threshold in Hdown.
      now destruct (decide (3 * ascending < 2 * descending)).
    + destruct (decide (3 * ascending < 2 * descending)) as [Hlt |]; [| done].
      apply movement_threshold in Hlt. now apply Qlt_not_le in Hlt.
Qed.

Lemma movement_static (l : list Z) :
  len l < 2 -> _analyze_pattern_movement l = "static".
Proof.
  intros Hlen. unfold _analyze_pattern_movement.
  now destruct (decide (len l < 2)).
Qed.

Lemma movement_swapped (l l' : list Z) :
  len l' = len l ->
  count_steps (fun next prev => prev <? next) l'
  = count_steps (fun next prev => next <? prev) l ->
  count_steps (fun next prev => next <? prev) l'
  = count_steps (fun next prev => prev <? next) l ->
  _analyze_pattern_movement l' = mirror (_analyze_pattern_movement l).
Proof.
  intros Hlen Hup Hdown.
  destruct (decide (len l < 2)) as [Hshort | Hlong].
  - rewrite !movement_static by lia. reflexivity.
  - rewrite !movement_by_counts by lia. rewrite Hup, Hdown.
    pose proof (count_steps_nonneg (fun next prev => prev <? next) l).
    pose proof (count_steps_nonneg (fun next prev => next <? prev) l).
    repeat case_decide; try reflexivity; lia.
Qed.

(** X6. Reading a pattern backwards exchanges the words [ascending] and
    [descending] of its movement and keeps [static] and [alternating]. *)
Theorem movement_of_reversed (intervals : list Z) :
  _analyze_pattern_movement (reverse intervals)
  = mirror (_analyze_pattern_movement intervals).
Proof.
  apply movement_swapped.
  - unfold len. now rewrite length_reverse.
  - apply count_steps_reverse.
  - apply count_steps_reverse.
Qed.

(** X7. Turning a pattern upside down (degree [x] to [7 - x]) exchanges the
    two words in the same way. *)
Theorem movement_of_inverted (intervals : list Z) :
  _analyze_pattern_movement (map (fun x => 7 - x) intervals)
  = mirror (_analyze_pattern_movement intervals).
Proof.
  apply movement_swapped.
  - unfold len. now rewrite length_map.
  - apply count_up_inverted.
  - apply count_down_inverted.
Qed.

Lemma count_steps_cons2 (cmp : Z -> Z -> bool) (x y : Z) (l : list Z) :
  count_steps cmp (x :: y :: l)
  = (if cmp y x then 1 else 0) + count_steps cmp (y :: l).
Proof. reflexivity. Qed.

Lemma wrap_step (a : Z) :
  0 <= a ->
  (if (a + 1) mod 8 <? a mod 8 then 1 else 0) = (a + 1) / 8 - a / 8
  /\ (if a mod 8 <? (a + 1) mod 8 then 1 else 0) = 1 - ((a + 1) / 8 - a / 8).
Proof.
  intros Ha.
  destruct ((a + 1) mod 8 <? a mod 8) eqn:Hdown,
           (a mod 8 <? (a + 1) mod 8) eqn:Hup;
    Z.div_mod_to_equations; lia.
Qed.

(** Step counts of the sequence [i mod 8] over [a, a + k]: it falls once
    per completed run of eight and rises otherwise. *)
Lemma count_steps_mod8 (k a : nat) :
  count_steps (fun next prev => next <? prev)
    (map (fun i => i mod 8) (map Z.of_nat (seq a (S k))))
  = Z.of_nat (a + k) / 8 - Z.of_nat a / 8
  /\ count_steps (fun next prev => prev <? next)
       (map (fun i => i mod 8) (map Z.of_nat (seq a (S k))))
     = Z.of_nat k - (Z.of_nat (a + k) / 8 - Z.of_nat a / 8).
Proof.
  revert a. induction k as [| k IH]; intros a.
  - simpl. rewrite Nat.add_0_r. lia.
  - destruct (IH (S a)) as [IHdown IHup].
    destruct (wrap_step (Z.of_nat a)) as [Hdown Hup]; [lia |].
    replace (Z.of_nat a + 1) with (Z.of_nat (S a)) in Hdown, Hup by lia.
    replace (Z.of_nat (a + S k)) with (Z.of_nat (S a + k)) by lia.
    change (map (fun i => i mod 8) (map Z.of_nat (seq a (S (S k)))))
      with (Z.of_nat a mod 8
            :: map (fun i => i mod 8) (map Z.of_nat (seq (S a) (S k)))).
    change (map (fun i => i mod 8) (map Z.of_nat (seq (S a) (S k))))
      with (Z.of_nat (S a) mod 8
            :: map (fun i => i mod 8) (map Z.of_nat (seq (S (S a)) k)))
      in IHdown, IHup |- *.
    rewrite !count_steps_cons2, Hdown, Hup, IHdown, IHup. lia.
Qed.

Lemma movement_of_ascending_ref (total_notes : Z) :
  2 <= total_notes ->
  _analyze_pattern_movement (ascending_ref total_notes) = "ascending".
Proof.
  intros Htotal. unfold ascending_ref.
  assert (Hlen : len (map (fun i => i mod 8) (range total_notes)) = total_notes).
  { unfold len. rewrite length_map. fold (len (range total_notes)).
    rewrite len_range. lia. }
  rewrite movement_by_counts by lia. unfold range.
  replace (Z.to_nat total_notes) with (S (Z.to_nat (total_notes - 1))) by lia.
  destruct (count_steps_mod8 (Z.to_nat (total_notes - 1)) 0) as [-> ->].
  simpl (0 + _)%nat. change (Z.of_nat 0 / 8) with 0.
  assert (0 <= Z.of_nat (Z.to_nat (total_notes - 1)) / 8
          /\ 8 * (Z.of_nat (Z.to_nat (total_notes - 1)) / 8)
             <= Z.of_nat (Z.to_nat (total_notes - 1))) as [? ?]
    by (Z.div_mod_to_equations; lia).
  case_decide; [reflexivity | lia].
Qed.

Section DescriptionExtras.
Context `{PyRandom}.

(** X8. For one bar or more the description agrees with the style asked
    for: the [ascending] pattern is described as ascending and the
    [descending] pattern as descending, for every mood. *)
Theorem style_described_as_asked (key mood : string) (num_bars : Z)
    (g : rng_state) :
  1 <= num_bars ->
  (exists pattern,
     create_pattern_from_style "ascending" key mood num_bars g
     = inr (pattern, g)
     /\ _analyze_pattern_movement pattern = "ascending")
  /\ (exists pattern,
        create_pattern_from_style "descending" key mood num_bars g
        = inr (pattern, g)
        /\ _analyze_pattern_movement pattern = "descending").
Proof.
  intros Hbars.
  pose proof (notes_per_bar_pos
                (note_density (dict_get mood_configs mood
                                 (mood_configs !!! "happy")))) as Hpos.
  assert (Hnpb : 2 <= _get_notes_per_bar
                        (note_density (dict_get mood_configs mood
                                         (mood_configs !!! "happy")))).
  { unfold _get_notes_per_bar, dict_get in *.
    destruct (density_map !! _) as [n |] eqn:Hn; [| lia].
    unfold density_map in Hn. apply elem_of_list_to_map_2 in Hn.
    repeat (apply elem_of_cons in Hn as [Hn | Hn]; [injection Hn as _ ->; lia |]).
    now apply elem_of_nil in Hn. }
  split; eexists; (split; [reflexivity |]).
  - apply movement_of_ascending_ref. nia.
  - change (map (fun i => 7 - i mod 8) ?l)
      with (map (fun i => (fun x => 7 - x) ((fun i => i mod 8) i)) l).
    rewrite <- (map_map (fun i => i mod 8) (fun x => 7 - x)).
    rewrite (movement_swapped (map (fun i => i mod 8) _))
      by (try apply count_up_inverted; try apply count_down_inverted;
          unfold len; now rewrite length_map).
    fold (ascending_ref (_get_notes_per_bar
                           (note_density (dict_get mood_configs mood
                                            (mood_configs !!! "happy")))
                         * num_bars)).
    rewrite movement_of_ascending_ref by nia. reflexivity.
Qed.

End DescriptionExtras.

(** ** The scale resolver: which pitches are returned *)

Section ScaleExtras.
Context `{Music21}.

Lemma scan_pitches_returns (ps : list Pitch) (octave : Z) :
  (forall p, p ∈ ps -> exists m, midi p = inr m) ->
  forall acc, exists r, scan_pitches ps octave acc = inr r.
Proof.
  induction ps as [| p ps IH]; intros Hmidi acc; simpl; [eauto |].
  destruct (Hmidi p) as [m ->]; [left |]. rewrite bind_inr.
  assert (Hrest : forall q, q ∈ ps -> exists m, midi q = inr m)
    by (intros q Hq; apply Hmidi; now right).
  destruct (decide (21 <= m + octave * 12 <= 108)); apply IH, Hrest.
Qed.

Lemma scan_octaves_returns (s : Scale) (ps : list Pitch) (octaves : list Z) :
  pitches s = inr ps ->
  (forall p, p ∈ ps -> exists m, midi p = inr m) ->
  forall acc, exists r, scan_octaves s octaves acc = inr r.
Proof.
  intros Hps Hmidi.
  induction octaves as [| octave rest IH]; intros acc; simpl; [eauto |].
  rewrite Hps, bind_inr.
  destruct (scan_pitches_returns ps octave Hmidi acc) as [acc' ->].
  rewrite bind_inr. apply IH.
Qed.

(** X9. When the music21 calls return, the resolved scale holds exactly the
    pitches of the scale moved by -1, 0, 1 or 2 octaves that fall within
    [21, 108]: none is lost and nothing else is added. *)
Theorem scale_notes_membership (key scale_type : string)
    (kp : Pitch) (s : Scale) (ps : list Pitch) :
  pitch_Pitch key = inr kp ->
  select_scale scale_type kp = inr s ->
  pitches s = inr ps ->
  (forall p, p ∈ ps -> exists m, midi p = inr m) ->
  forall x,
    x ∈ get_scale_notes key scale_type
    <-> 21 <= x <= 108
        /\ exists p m octave,
             p ∈ ps /\ midi p = inr m /\ -1 <= octave <= 2
             /\ x = m + octave * 12.
Proof.
  intros Hkp Hs Hps Hmidi x.
  destruct (scan_octaves_returns s ps [-1; 0; 1; 2] Hps Hmidi []) as [raw Hraw].
  assert (Hnotes : get_scale_notes key scale_type = sorted_set raw).
  { unfold get_scale_notes, get_scale_notes_try.
    now rewrite Hkp, bind_inr, Hs, bind_inr, Hraw, bind_inr. }
  rewrite Hnotes, sorted_set_elem, (scan_octaves_spec _ _ _ _ Hraw x).
  split.
  - intros [Hx | (ps' & o & p & m & Hps' & Ho & Hp & Hm & -> & Hrange)];
      [now apply elem_of_nil in Hx |].
    rewrite Hps in Hps'. injection Hps' as <-.
    split; [exact Hrange |]. exists p, m, o. repeat split; try assumption.
    + apply list_elem_of_In in Ho. simpl in Ho. lia.
    + apply list_elem_of_In in Ho. simpl in Ho. lia.
  - intros (Hrange & p & m & o & Hp & Hm & Ho & ->).
    right. exists ps, o, p, m. repeat split; try assumption; try lia.
    apply list_elem_of_In. simpl. lia.
Qed.

End ScaleExtras.

(** ** Extraction: the digit-run branch *)

Lemma cyclic_prefix_nil (l : list Z) : cyclic_prefix l 0 = [].
Proof. reflexivity. Qed.



(** ** Extraction: the character scan *)

Lemma digit_runs_nil (text run : list ascii) :
  digit_runs text run = [] ->
  run = [] /\ Forall (fun c => re_digit c = false) text.
Proof.
  revert run. induction text as [| c text IH]; intros run Hnil; simpl in Hnil.
  - destruct run; [split; [reflexivity | constructor] | discriminate].
  - destruct (re_digit c) eqn:Hc.
    + apply IH in Hnil as [Hrun _]. now destruct run.
    + destruct run; [| discriminate].
      apply IH in Hnil as [_ Hall]. split; [reflexivity | now constructor].
Qed.

Lemma letter_values_cons (c : ascii) (chars : list ascii) :
  letter_values (c :: chars)
  = (if isalpha c then [ord (lower c) mod 8] else []) ++ letter_values chars.
Proof. unfold letter_values. simpl. now destruct (isalpha c). Qed.



Lemma scan_chars_prefix (num_notes : Z) (pre rest : list ascii) :
  Forall (fun c => isdigit c = false) pre ->
  forall acc,
    pre = [] \/ len (acc ++ letter_values pre) < num_notes ->
    scan_chars (pre ++ rest) acc num_notes
    = scan_chars rest (acc ++ letter_values pre) num_notes.
Proof.
  induction 1 as [| c pre Hc Hall IH]; intros acc Hroom.
  - simpl. now rewrite app_nil_r.
  - destruct Hroom as [? | Hroom]; [done |].
    rewrite letter_values_cons in *. simpl. rewrite Hc.
    unfold len in Hroom. rewrite !length_app in Hroom.
    destruct (isalpha c); unfold mret, raises_ret; rewrite bind_inr.
    + destruct (decide (num_notes <= len (acc ++ [ord (lower c) mod 8])))
        as [Hfull | _].
      { unfold len in Hfull. rewrite length_app in Hfull. simpl in *. lia. }
      rewrite IH; [now rewrite <- app_assoc |].
      right. unfold len. rewrite !length_app. simpl in *. lia.
    + destruct (decide (num_notes <= len acc)) as [Hfull | _].
      { unfold len in Hfull. simpl in *. lia. }
      simpl. apply IH. right. unfold len. rewrite length_app. simpl in *. lia.
Qed.

(** Elements of the two loops' results. *)
Lemma pad_loop_Forall (P : Z -> Prop) (num_notes : Z) :
  forall fuel l r,
    pad_loop fuel l num_notes = Ok r -> Forall P l -> Forall P r.
Proof.
  induction fuel as [| fuel IH]; intros l r Hr Hl; simpl in Hr;
    destruct (decide (len l < num_notes)); try discriminate;
    try (injection Hr as <-; exact Hl).
  apply (IH _ _ Hr). apply Forall_app. split; [exact Hl |].
  unfold py_take. destruct (decide (0 <= num_notes - len l));
    now apply Forall_take.
Qed.

Lemma scan_chars_Forall (num_notes : Z) (chars : list ascii) :
  forall acc r,
    scan_chars chars acc num_notes = inr r ->
    Forall (fun x => 0 <= x <= 7) acc -> Forall (fun x => 0 <= x <= 7) r.
Proof.
  induction chars as [| c chars IH]; intros acc r Hr Hacc; simpl in Hr.
  - now injection Hr as <-.
  - assert (Hstep : forall acc',
              Forall (fun x => 0 <= x <= 7) acc' ->
              (if decide (num_notes <= len acc') then inr acc'
               else scan_chars chars acc' num_notes) = inr r ->
              Forall (fun x => 0 <= x <= 7) r).
    { intros acc' Hacc' Hrun.
      destruct (decide (num_notes <= len acc')).
      - now injection Hrun as <-.
      - exact (IH _ _ Hrun Hacc'). }
    destruct (isdigit c).
    + destruct (int_char c) as [e | d]; [discriminate |].
      apply (Hstep (acc ++ [d mod 8])); [| exact Hr].
      apply Forall_app. split; [exact Hacc |].
      repeat constructor; apply mod8_range.
    + destruct (isalpha c).
      * apply (Hstep (acc ++ [ord (lower c) mod 8])); [| exact Hr].
        apply Forall_app. split; [exact Hacc |].
        repeat constructor; apply mod8_range.
      * apply (Hstep acc Hacc Hr).
Qed.

Lemma length_py_take {A} (n : Z) (l : list A) :
  0 <= n -> len (py_take n l) <= n.
Proof.
  intros Hn. rewrite py_take_nonneg by exact Hn. unfold len.
  rewrite length_take. lia.
Qed.

Lemma Forall_py_take {A} (P : A -> Prop) (n : Z) (l : list A) :
  Forall P l -> Forall P (py_take n l).
Proof. intros Hl. unfold py_take. destruct (decide (0 <= n)); now apply Forall_take. Qed.

Lemma extraction_at_most (text : string) (num_notes : Z) (l : list Z) :
  _extract_intervals text num_notes = Ok l ->
  0 <= num_notes -> len l <= num_notes.
Proof.
  unfold _extract_intervals. intros Hl Hn.
  destruct (re_findall_digits text) as [| m ms].
  - destruct (scan_chars _ [] num_notes) as [e | r]; [discriminate |].
    simpl in Hl. injection Hl as <-.
    destruct r; [unfold len; simpl; lia | now apply length_py_take].
  - destruct (pad_loop _ _ num_notes) as [r | e |]; try discriminate.
    simpl in Hl. injection Hl as <-. now apply length_py_take.
Qed.

(** X12. Whatever the text, the values [_extract_intervals] returns are
    scale degrees in [0, 7], and for a count that is not negative there
    are at most [num_notes] of them. *)
Theorem extraction_values_are_degrees (text : string) (num_notes : Z)
    (l : list Z) :
  _extract_intervals text num_notes = Ok l ->
  Forall (fun x => 0 <= x <= 7) l /\ (0 <= num_notes -> len l <= num_notes).
Proof.
  unfold _extract_intervals.
  destruct (re_findall_digits text) as [| m ms].
  - destruct (scan_chars _ [] num_notes) as [e | r] eqn:Hscan; [discriminate |].
    simpl. intros Hl. injection Hl as <-.
    pose proof (scan_chars_Forall _ _ _ _ Hscan (List.Forall_nil _)) as Hr.
    destruct r as [| x r].
    + split; [constructor | unfold len; simpl; lia].
    + split; [now apply Forall_py_take | apply length_py_take].
  - destruct (pad_loop _ _ num_notes) as [r | e |] eqn:Hpad; try discriminate.
    simpl. intros Hl. injection Hl as <-. split.
    + apply Forall_py_take, (pad_loop_Forall _ _ _ _ _ Hpad).
      apply Forall_map, Forall_forall. intros run _. apply mod8_range.
    + apply length_py_take.
Qed.

Section GeneratorExtras.
Context `{Torch}.

(** X13. A superscript digit raises: for a text without digit runs, if the
    second half reaches one of the characters U+00B2, U+00B3, U+00B9
    (digits for [isdigit], not for [int]) before [num_notes] letters have
    been read, extraction raises [ValueError] and
    [generate_interval_pattern] answers with the fallback pattern. *)
Theorem superscript_digit_falls_back (key mood : string) (num_notes : Z)
    (temperature : Q) (ts : torch_state) (text : string)
    (pre post : list ascii) (c : ascii) :
  (_generate_text (_create_prompt key mood num_notes) temperature ts).1
  = inr text ->
  re_findall_digits text = [] ->
  second_half text = pre ++ c :: post ->
  Forall (fun x => isdigit x = false) pre ->
  isdigit c = true ->
  pre = [] \/ len (letter_values pre) < num_notes ->
  _extract_intervals text num_notes = Raise ValueError
  /\ (generate_interval_pattern key mood num_notes temperature ts).1
     = _fallback_pattern mood num_notes.
Proof.
  intros Htext Hruns Hhalf Hpre Hc Hroom.
  assert (Hraise : _extract_intervals text num_notes = Raise ValueError).
  { assert (Hplain : re_digit c = false).
    { apply digit_runs_nil in Hruns as [_ Hall]. fold (second_half text) in *.
      assert (Hin : c ∈ list_ascii_of_string text).
      { assert (c ∈ second_half text) as Hin
          by (rewrite Hhalf; apply elem_of_app; right; left).
        unfold second_half in Hin.
        apply list_elem_of_lookup in Hin as [i Hi].
        rewrite lookup_drop in Hi. eapply list_elem_of_lookup_2, Hi. }
      rewrite Forall_forall in Hall. exact (Hall c Hin). }
    unfold _extract_intervals. rewrite Hruns. fold (second_half text).
    rewrite Hhalf, (scan_chars_prefix num_notes pre (c :: post) Hpre [] Hroom).
    simpl. rewrite Hc. unfold int_char. rewrite Hplain. reflexivity. }
  split; [exact Hraise |].
  exact (falls_back_when_extraction_raises _ _ _ _ _ _ _ Htext Hraise).
Qed.

(** X14. [generate_interval_pattern] always returns a list: it neither
    raises nor loops, and for a request of at least one note the list is
    non-empty and holds between [num_notes // 2] and [num_notes] values. *)
Theorem generated_pattern_bounds (key mood : string) (num_notes : Z)
    (temperature : Q) (ts : torch_state) :
  exists l,
    (generate_interval_pattern key mood num_notes temperature ts).1 = Ok l
    /\ (num_notes <= 0
        \/ (l <> [] /\ num_notes / 2 <= len l <= num_notes)).
Proof.
  assert (Hfallback : exists l, _fallback_pattern mood num_notes = Ok l
            /\ (num_notes <= 0
                \/ (l <> [] /\ num_notes / 2 <= len l <= num_notes))).
  { rewrite (fallback_pattern_cyclic _ _ (patterns_nonempty mood)).
    eexists. split; [reflexivity |].
    destruct (decide (num_notes <= 0)); [now left | right].
    assert (Hlen : len (cyclic_prefix (dict_get patterns mood [0; 2; 4; 5; 7])
                                      (Z.to_nat num_notes)) = num_notes)
      by (unfold len; rewrite length_cyclic_prefix; lia).
    split.
    - intros Hnil. rewrite Hnil in Hlen. unfold len in Hlen. simpl in Hlen. lia.
    - rewrite Hlen. split; [Z.div_mod_to_equations; lia | lia]. }
  destruct Hfallback as (fallback & Hfallback & Hbounds).
  unfold generate_interval_pattern.
  destruct (_generate_text _ temperature ts) as [[e | text] ts']; simpl;
    [rewrite Hfallback; eauto |].
  pose proof (extract_intervals_terminates text num_notes) as Hterm.
  destruct (_extract_intervals text num_notes) as [l | e |] eqn:Hl; simpl;
    [| rewrite Hfallback; eauto | done].
  destruct (decide (l = [] \/ len l < num_notes / 2)) as [| Hlong];
    [rewrite Hfallback; eauto |].
  exists l. split; [reflexivity |].
  destruct (decide (num_notes <= 0)); [now left | right].
  pose proof (extraction_at_most _ _ _ Hl) as Hmost.
  split; [tauto |]. split; [lia | apply Hmost; lia].
Qed.

End GeneratorExtras.

(** ** The whole pipeline *)

Lemma bind_Ok {A B} (a : A) (k : A -> result B) : (Ok a ≫= k) = k a.
Proof. reflexivity. Qed.

Lemma notes_per_bar_bounds (density : string) :
  2 <= _get_notes_per_bar density <= 32.
Proof.
  unfold _get_notes_per_bar, dict_get.
  destruct (density_map !! density) as [n |] eqn:Hn; [| lia].
  unfold density_map in Hn. apply elem_of_list_to_map_2 in Hn.
  repeat (apply elem_of_cons in Hn as [Hn | Hn]; [injection Hn as _ ->; lia |]).
  now apply elem_of_nil in Hn.
Qed.

Lemma velocity_ranges_midi (mood : string) :
  30 <= (velocity_range (dict_get mood_configs mood (mood_configs !!! "happy"))).1
  /\ (velocity_range (dict_get mood_configs mood (mood_configs !!! "happy"))).2
     <= 127.
Proof.
  assert (Htable : forall m c, mood_configs !! m = Some c ->
                     30 <= (velocity_range c).1 /\ (velocity_range c).2 <= 127).
  { intros m c Hc. unfold mood_configs in Hc.
    apply elem_of_list_to_map_2 in Hc.
    repeat (apply elem_of_cons in Hc as [Hc | Hc];
            [injection Hc as _ ->; simpl; lia |]).
    now apply elem_of_nil in Hc. }
  unfold dict_get. destruct (mood_configs !! mood) as [c |] eqn:Hc.
  - eapply Htable, Hc.
  - destruct happy_present as [h Hh].
    rewrite (lookup_total_correct _ _ _ Hh). eapply Htable, Hh.
Qed.

Section PipelineExtras.
Context `{PyRandom} `{Music21} `{Torch}.

Lemma style_pattern_nonempty (style key mood : string) (num_bars : Z)
    (g : rng_state) :
  1 <= num_bars ->
  exists pattern g',
    create_pattern_from_style style key mood num_bars g = inr (pattern, g')
    /\ pattern <> [].
Proof.
  intros Hbars. unfold create_pattern_from_style.
  destruct (range_pos_cons
              (_get_notes_per_bar
                 (note_density (dict_get mood_configs mood
                                  (mood_configs !!! "happy"))) * num_bars))
    as [rest Hrange].
  { pose proof (notes_per_bar_bounds
                  (note_density (dict_get mood_configs mood
                                   (mood_configs !!! "happy")))). nia. }
  rewrite Hrange.
  destruct (decide (style = "ascending")); [eexists _, _; split; [reflexivity | discriminate] |].
  destruct (decide (style = "descending")); [eexists _, _; split; [reflexivity | discriminate] |].
  destruct (decide (style = "alternating")).
  { rewrite <- Hrange, alternating_loop_ref. unfold alternating_ref.
    rewrite Hrange. eexists _, _; split; [reflexivity | discriminate]. }
  destruct (decide (style = "random"));
    [| eexists _, _; split; [reflexivity | discriminate]].
  simpl. destruct (random_randint_returns 0 7 g) as (x & g1 & -> & _); [lia |].
  rewrite bind_inr.
  destruct (random_pattern_spec rest g1) as (xs & g' & -> & _).
  rewrite bind_inr. eexists _, _; split; [reflexivity | discriminate].
Qed.

Lemma generated_pattern_nonempty (key mood : string) (num_notes : Z)
    (temperature : Q) (ts : torch_state) :
  1 <= num_notes ->
  exists l,
    (generate_interval_pattern key mood num_notes temperature ts).1 = Ok l
    /\ l <> [].
Proof.
  intros Hn.
  assert (Hfallback : exists l, _fallback_pattern mood num_notes = Ok l /\ l <> []).
  { rewrite (fallback_pattern_cyclic _ _ (patterns_nonempty mood)).
    eexists. split; [reflexivity |]. intros Hnil.
    apply (f_equal (@length _)) in Hnil.
    rewrite length_cyclic_prefix in Hnil. simpl in Hnil. lia. }
  destruct Hfallback as (fallback & Hfallback & Hne).
  unfold generate_interval_pattern.
  destruct (_generate_text _ temperature ts) as [[e | text] ts']; simpl;
    [rewrite Hfallback; eauto |].
  pose proof (extract_intervals_terminates text num_notes) as Hterm.
  destruct (_extract_intervals text num_notes) as [l | e |]; simpl;
    [| rewrite Hfallback; eauto | done].
  destruct (decide (l = [] \/ len l < num_notes / 2)) as [| Hlong];
    [rewrite Hfallback; eauto |].
  exists l. split; [reflexivity | tauto].
Qed.

(** X15. Every request the schema accepts is served: once seeding has
    returned and the scale is not empty, generation returns exactly
    [notes_per_bar * num_bars] notes, between 2 and 256 of them, each with
    a pitch in [21, 108] and a velocity in [30, 127] - for every pattern
    style, the model-backed one included, whatever text the model
    produces. *)
Theorem valid_request_is_served (r : ArpeggiatorRequest) (w w0 : World) :
  request_valid r ->
  seed_all (req_seed r) w = Ok w0 ->
  get_scale_notes (req_key r)
    (scale_type (dict_get mood_configs (req_mood r) (mood_configs !!! "happy")))
  <> [] ->
  exists notes,
    generated_notes (req_key r) (req_mood r) (req_bpm r) (req_num_bars r)
                    (req_pattern_style r) (req_seed r) w = Ok notes
    /\ len notes
       = _get_notes_per_bar
           (note_density (dict_get mood_configs (req_mood r)
                            (mood_configs !!! "happy")))
         * req_num_bars r
    /\ 2 <= len notes <= 256
    /\ Forall (fun n => 21 <= note_pitch n <= 108
                        /\ 30 <= note_velocity n <= 127) notes.
Proof.
  intros (_ & _ & _ & Hbars & _) Hseed Hscale.
  set (config := dict_get mood_configs (req_mood r) (mood_configs !!! "happy"))
    in *.
  pose proof (notes_per_bar_bounds (note_density config)) as Hnpb.
  assert (Hintervals : exists intervals w1,
            (if decide (req_pattern_style r = "ai-generated") then
               let '(res, ts) :=
                 _generate_ai_pattern (req_key r) (req_mood r) (req_num_bars r)
                                      (torch_random w0) in
               intervals ← res;
               Ok (intervals, {| py_random := py_random w0;
                                 np_random := np_random w0;
                                 torch_random := ts |})
             else
               '(intervals, g) ← call (create_pattern_from_style
                                         (req_pattern_style r) (req_key r)
                                         (req_mood r) (req_num_bars r)
                                         (py_random w0));
               Ok (intervals, {| py_random := g; np_random := np_random w0;
                                 torch_random := torch_random w0 |}))
            = Ok (intervals, w1) /\ intervals <> []).
  { destruct (decide (req_pattern_style r = "ai-generated")).
    - unfold _generate_ai_pattern. fold config.
      destruct (generated_pattern_nonempty (req_key r) (req_mood r)
                  (_get_notes_per_bar (note_density config) * req_num_bars r)
                  (8 # 10) (torch_random w0)) as (l & Hl & Hne); [nia |].
      destruct (generate_interval_pattern _ _ _ _ _) as [res ts].
      simpl in Hl. subst res. rewrite bind_Ok. eauto.
    - destruct (style_pattern_nonempty (req_pattern_style r) (req_key r)
                  (req_mood r) (req_num_bars r) (py_random w0))
        as (pattern & g' & -> & Hne); [lia |].
      simpl. eauto. }
  destruct Hintervals as (intervals & w1 & Hintervals & Hne).
  destruct (create_arpeggio_rendered (req_key r) (req_mood r) intervals
              (req_num_bars r) (req_bpm r) (py_random w1) Hne Hscale)
    as (notes & g' & Hrun & Hnotes).
  fold config in Hnotes.
  exists (map (fun note_data =>
                 {| note_velocity := velocity note_data;
                    note_pitch := pitch note_data;
                    note_start := start note_data;
                    note_end := end_ note_data |}) notes).
  assert (Hlen : len notes = _get_notes_per_bar (note_density config)
                             * req_num_bars r).
  { apply Forall2_length in Hnotes. unfold len. rewrite <- Hnotes.
    fold (len (range (_get_notes_per_bar (note_density config)
                      * req_num_bars r))).
    rewrite len_range. nia. }
  split; [| split; [| split]].
  - unfold generated_notes, generate_arpeggio.
    rewrite Hseed, bind_Ok, Hintervals, bind_Ok, Hrun. simpl.
    now rewrite app_nil_r.
  - unfold len in *. now rewrite length_map.
  - unfold len in *. rewrite length_map. nia.
  - apply Forall_map, Forall_forall. intros n Hn. simpl.
    apply list_elem_of_lookup in Hn as [k Hk].
    destruct (Forall2_lookup_r _ _ _ _ _ Hnotes Hk) as (i & _ & Hfrom).
    destruct (rendered_from_range _ _ _ _ _ Hfrom) as [Hpitch Hvel].
    pose proof (velocity_ranges_midi (req_mood r)) as Hmidi.
    fold config in Hmidi. split; [exact Hpitch | lia].
Qed.

End PipelineExtras.

Section SeedingExtras.
Context `{PyRandom} `{Music21} `{Torch}.

(** X16. Seeding has no fallback: when numpy or torch rejects the seed the
    whole call raises that exception, before a pattern is chosen or a note
    rendered. *)
Theorem seeding_failure_is_raised (key mood : string) (bpm num_bars : Z)
    (pattern_style : string) (seed : Z) (w : World) (e : exn) :
  np_random_seed seed = inl e
  \/ (exists np, np_random_seed seed = inr np)
     /\ torch_manual_seed seed = inl e ->
  generate_arpeggio key mood bpm num_bars pattern_style (Some seed) w
  = Raise e.
Proof.
  intros [Hnp | [[np Hnp] Htorch]]; unfold generate_arpeggio, seed_all.
  - now rewrite Hnp.
  - now rewrite Hnp, Htorch.
Qed.

(** X17. The rule-based styles do not consult the model: without a seed,
    the notes of a run with any style other than [ai-generated] depend on
    the state of [random] alone, not on the numpy or torch state. *)
Theorem rule_styles_ignore_model (key mood : string) (bpm num_bars : Z)
    (pattern_style : string) (w1 w2 : World) :
  pattern_style <> "ai-generated" ->
  py_random w1 = py_random w2 ->
  generated_notes key mood bpm num_bars pattern_style None w1
  = generated_notes key mood bpm num_bars pattern_style None w2.
Proof.
  intros Hstyle Hpy. unfold generated_notes, generate_arpeggio.
  simpl seed_all. rewrite !bind_Ok.
  destruct (decide (pattern_style = "ai-generated")); [done |].
  rewrite Hpy.
  destruct (create_pattern_from_style pattern_style key mood num_bars
              (py_random w2)) as [e | [intervals g]]; [reflexivity |].
  simpl.
  destruct (create_arpeggio_from_intervals key mood intervals num_bars bpm g)
    as [e | [notes g']]; reflexivity.
Qed.

End SeedingExtras.

(** ** The mood tables *)

(** X18. The schema's moods are exactly the keys of the three mood tables:
    every mood a request may name has a configuration, a fallback pattern
    and a prompt phrase of its own, and the tables hold no other key. *)
Theorem mood_tables_agree (mood : string) :
  (mood ∈ mood_literal <-> is_Some (mood_configs !! mood))
  /\ (mood ∈ mood_literal <-> is_Some (patterns !! mood))
  /\ (mood ∈ mood_literal <-> is_Some (mood_descriptions !! mood)).
Proof.
  assert (Hkeys : forall {V} (table : list (string * V)),
            table.*1 = mood_literal ->
            mood ∈ mood_literal
            <-> is_Some ((list_to_map table : gmap string V) !! mood)).
  { intros V table Hfst. rewrite <- Hfst. split.
    - intros Hin. destruct (list_to_map table !! mood) eqn:Hlook; [eauto |].
      now apply not_elem_of_list_to_map_2 in Hlook.
    - intros [v Hv]. apply elem_of_list_to_map_2 in Hv.
      apply list_elem_of_fmap. exists (mood, v). auto. }
  split; [| split]; apply Hkeys; reflexivity.
Qed.

(** ** The renderer reads intervals cyclically and modulo the scale *)

Section RenderReading.
Context `{PyRandom} `{Music21}.

(** The loop depends on the interval list only through the scale note it
    selects at each index. *)
Lemma render_loop_ext (config : MoodConfig) (intervals1 intervals2 scale_notes : list Z)
    (rhythm_pattern : list Q) :
  forall indices notes current_time g,
    (forall i, i ∈ indices ->
       (k ← py_mod i (len intervals1); interval ← py_index intervals1 k;
        scale_index ← py_mod interval (len scale_notes);
        py_index scale_notes scale_index)
       = (k ← py_mod i (len intervals2); interval ← py_index intervals2 k;
          scale_index ← py_mod interval (len scale_notes);
          py_index scale_notes scale_index)) ->
    render_loop config intervals1 scale_notes rhythm_pattern indices
                notes current_time g
    = render_loop config intervals2 scale_notes rhythm_pattern indices
                  notes current_time g.
Proof.
  induction indices as [| i rest IH]; intros notes t g Hsame; [reflexivity |].
  assert (Hrest : forall notes t g,
            render_loop config intervals1 scale_notes rhythm_pattern rest notes t g
            = render_loop config intervals2 scale_notes rhythm_pattern rest notes t g).
  { intros. apply IH. intros j Hj. apply Hsame. now right. }
  specialize (Hsame i (list_elem_of_here _ _)).
  simpl render_loop.
  destruct (py_mod i (len intervals1)) as [e1 | k1],
           (py_mod i (len intervals2)) as [e2 | k2];
    simpl in Hsame |- *; try rewrite !bind_inr in *.
  - congruence.
  - destruct (py_index intervals2 k2) as [e | v2]; simpl in *; [congruence |].
    destruct (py_mod v2 (len scale_notes)) as [e | s2]; simpl in *; [congruence |].
    destruct (py_index scale_notes s2); simpl in *; congruence.
  - destruct (py_index intervals1 k1) as [e | v1]; simpl in *; [congruence |].
    destruct (py_mod v1 (len scale_notes)) as [e | s1]; simpl in *; [congruence |].
    destruct (py_index scale_notes s1); simpl in *; congruence.
  - destruct (py_index intervals1 k1) as [e1 | v1],
             (py_index intervals2 k2) as [e2 | v2]; simpl in *.
    + congruence.
    + destruct (py_mod v2 (len scale_notes)) as [e | s2]; simpl in *; [congruence |].
      destruct (py_index scale_notes s2); simpl in *; congruence.
    + destruct (py_mod v1 (len scale_notes)) as [e | s1]; simpl in *; [congruence |].
      destruct (py_index scale_notes s1); simpl in *; congruence.
    + destruct (py_mod v1 (len scale_notes)) as [e1 | s1],
               (py_mod v2 (len scale_notes)) as [e2 | s2]; simpl in *.
      * congruence.
      * destruct (py_index scale_notes s2); simpl in *; congruence.
      * destruct (py_index scale_notes s1); simpl in *; congruence.
      * destruct (py_index scale_notes s1) as [e1 | b1],
                 (py_index scale_notes s2) as [e2 | b2]; simpl in *;
          try congruence.
        injection Hsame as ->.
        destruct (random_randint _ _ g) as [e | [o g1]]; simpl; [reflexivity |].
        destruct (py_mod i (len rhythm_pattern)) as [e | j]; simpl; [reflexivity |].
        destruct (py_index rhythm_pattern j) as [e | d]; simpl; [reflexivity |].
        destruct (random_randint _ _ g1) as [e | [v g2]]; simpl; [reflexivity |].
        apply Hrest.
Qed.

Lemma lookup_map_Z (f : Z -> Z) (l : list Z) (i : Z) :
  py_index (map f l) i = (x ← py_index l i; mret (f x)).
Proof.
  unfold py_index. rewrite lookup_map. now destruct (l !! Z.to_nat i).
Qed.

(** X19. The renderer reads degrees modulo the length of the scale: an
    interval list and the same list reduced modulo [len(scale_notes)]
    render alike, so values outside [0, 7] (negative ones included) are
    accepted. *)
Theorem degrees_read_modulo_scale (key mood : string) (intervals : list Z)
    (num_bars bpm : Z) (g : rng_state) :
  create_arpeggio_from_intervals key mood intervals num_bars bpm g
  = create_arpeggio_from_intervals key mood
      (map (fun x =>
              x mod len (get_scale_notes key
                           (scale_type (dict_get mood_configs mood
                                          (mood_configs !!! "happy")))))
           intervals)
      num_bars bpm g.
Proof.
  unfold create_arpeggio_from_intervals.
  set (config := dict_get mood_configs mood (mood_configs !!! "happy")).
  set (scale_notes := get_scale_notes key (scale_type config)).
  destruct (random_choice (rhythm_patterns config) g) as [e | [rp g1]];
    [reflexivity |].
  rewrite !bind_inr. apply render_loop_ext. intros i _.
  assert (Hlen : len (map (fun x => x mod len scale_notes) intervals)
                 = len intervals) by (unfold len; now rewrite length_map).
  rewrite Hlen.
  destruct (py_mod i (len intervals)) as [e | k]; [reflexivity |].
  rewrite !bind_inr, lookup_map_Z.
  destruct (py_index intervals k) as [e | x]; [reflexivity |].
  rewrite !bind_inr. unfold mret, raises_ret. rewrite bind_inr.
  unfold py_mod. destruct (decide (len scale_notes = 0)); [reflexivity |].
  now rewrite Z.mod_mod.
Qed.

(** X20. The renderer reads intervals cyclically: a list shorter than the
    note count renders exactly as its cyclic repetition cut to the note
    count. *)
Theorem short_pattern_renders_as_cycle (key mood : string)
    (intervals : list Z) (num_bars bpm : Z) (g : rng_state) :
  intervals <> [] ->
  create_arpeggio_from_intervals key mood intervals num_bars bpm g
  = create_arpeggio_from_intervals key mood
      (cyclic_prefix intervals
         (Z.to_nat (_get_notes_per_bar
                      (note_density (dict_get mood_configs mood
                                       (mood_configs !!! "happy")))
                    * num_bars)))
      num_bars bpm g.
Proof.
  intros Hne. unfold create_arpeggio_from_intervals.
  set (config := dict_get mood_configs mood (mood_configs !!! "happy")).
  set (total_notes := _get_notes_per_bar (note_density config) * num_bars).
  destruct (random_choice (rhythm_patterns config) g) as [e | [rp g1]];
    [reflexivity |].
  rewrite !bind_inr. apply render_loop_ext. intros i Hi.
  unfold range in Hi. apply list_elem_of_In, in_map_iff in Hi as (j & <- & Hj).
  apply in_seq in Hj.
  assert (Hcycle : cyclic_prefix intervals (Z.to_nat total_notes) <> []).
  { intros Hnil. apply (f_equal (@length _)) in Hnil.
    rewrite length_cyclic_prefix in Hnil. simpl in Hnil. lia. }
  rewrite (py_mod_len _ _ Hne), (py_mod_len _ _ Hcycle), !bind_inr.
  destruct (py_index_cycle intervals (Z.of_nat j) Hne) as (x & Hx & ->).
  assert (Hsmall : Z.of_nat j mod len (cyclic_prefix intervals
                                         (Z.to_nat total_notes))
                   = Z.of_nat j).
  { apply Z.mod_small. unfold len. rewrite length_cyclic_prefix. lia. }
  rewrite Hsmall.
  assert (Hread : py_index (cyclic_prefix intervals (Z.to_nat total_notes))
                           (Z.of_nat j) = inr x).
  { unfold py_index. rewrite Nat2Z.id, lookup_cyclic_prefix_lt by lia.
    f_equal. apply nth_lookup_Some. rewrite <- Hx. f_equal. unfold len.
    rewrite <- Nat2Z.inj_mod. now rewrite Nat2Z.id. }
  now rewrite Hread.
Qed.

End RenderReading.

(** ** The further properties on the stubs *)

Lemma rendered_notes_in_range_witness :
  exists notes g',
    @create_arpeggio_from_intervals Stub.random Stub.music21
      "C" "calm" [7; 6; 5; 4] 1 120 (42 : @rng_state Stub.random)
    = inr (notes, g')
    /\ Forall (fun n => 21 <= pitch n <= 108 /\ 50 <= velocity n <= 80) notes.
Proof.
  destruct (@rendered_notes_in_range Stub.random Stub.music21
              "C" "calm" [7; 6; 5; 4] 1 120 42)
    as (notes & g' & Hrun & _ & Hall).
  - discriminate.
  - vm_compute. discriminate.
  - exists notes, g'. split; [exact Hrun | exact Hall].
Defined.

Lemma render_raises_on_empty_witness :
  @create_arpeggio_from_intervals Stub.random Stub.music21
    "C" "calm" [] 1 120 (42 : @rng_state Stub.random)
  = inl ZeroDivisionError.
Proof.
  apply (@render_raises_on_empty Stub.random Stub.music21 "C" "calm" [] 1 120 42).
  - lia.
  - left. reflexivity.
Defined.

Lemma render_nothing_without_bars_witness :
  exists rhythm_pattern g1,
    @random_choice Stub.random _
      (rhythm_patterns (dict_get mood_configs "calm" (mood_configs !!! "happy")))
      (42 : @rng_state Stub.random) = inr (rhythm_pattern, g1)
    /\ @create_arpeggio_from_intervals Stub.random Stub.music21
         "C" "calm" [] 0 120 42 = inr ([], g1).
Proof.
  apply (@render_nothing_without_bars Stub.random Stub.music21
           "C" "calm" [] 0 120 42).
  lia.
Defined.

Lemma alternating_short_is_ascending_witness :
  @create_pattern_from_style Stub.random "alternating" "C" "calm" 2
    (42 : @rng_state Stub.random)
  = @create_pattern_from_style Stub.random "ascending" "C" "calm" 2 42.
Proof.
  apply (@alternating_short_is_ascending Stub.random "C" "calm" 2 42).
  vm_compute. discriminate.
Defined.

Lemma style_described_as_asked_witness :
  (exists pattern,
     @create_pattern_from_style Stub.random "ascending" "C" "happy" 2
       (42 : @rng_state Stub.random) = inr (pattern, 42)
     /\ _analyze_pattern_movement pattern = "ascending")
  /\ (exists pattern,
        @create_pattern_from_style Stub.random "descending" "C" "happy" 2
          (42 : @rng_state Stub.random) = inr (pattern, 42)
        /\ _analyze_pattern_movement pattern = "descending").
Proof.
  apply (@style_described_as_asked Stub.random "C" "happy" 2 42). lia.
Defined.

Lemma scale_notes_membership_witness :
  60 ∈ @get_scale_notes Stub.music21 "C" "major"
  <-> 21 <= 60 <= 108
      /\ exists (p : @Pitch Stub.music21) m octave,
           p ∈ map (Z.add 60) [0; 2; 4; 5; 7; 9; 11; 12]
           /\ @midi Stub.music21 p = inr m /\ -1 <= octave <= 2
           /\ 60 = m + octave * 12.
Proof.
  apply (@scale_notes_membership Stub.music21 "C" "major" 60
           (map (Z.add 60) [0; 2; 4; 5; 7; 9; 11; 12])
           (map (Z.add 60) [0; 2; 4; 5; 7; 9; 11; 12])).
  - reflexivity.
  - reflexivity.
  - reflexivity.
  - intros p _. exists p. reflexivity.
Defined.



Lemma extraction_values_are_degrees_witness :
  Forall (fun x => 0 <= x <= 7) [3; 4] /\ (0 <= 4 -> len [3; 4] <= 4).
Proof.
  apply (extraction_values_are_degrees "abcd" 4 [3; 4]).
  vm_compute. reflexivity.
Defined.

Lemma superscript_digit_falls_back_witness :
  _extract_intervals Stub.superscript_text 4 = Raise ValueError
  /\ (@generate_interval_pattern Stub.superscript_torch "C" "calm" 4 (8 # 10)
        (0 : @torch_state Stub.superscript_torch)).1
     = _fallback_pattern "calm" 4.
Proof.
  apply (@superscript_digit_falls_back Stub.superscript_torch "C" "calm" 4
           (8 # 10) 0 Stub.superscript_text
           ["d"%char] ["e"%char] (ascii_of_nat 178)).
  - reflexivity.
  - vm_compute. reflexivity.
  - vm_compute. reflexivity.
  - repeat constructor.
  - vm_compute. reflexivity.
  - right. vm_compute. reflexivity.
Defined.

Lemma valid_request_is_served_witness :
  exists notes,
    @generated_notes Stub.random Stub.music21 Stub.torch
      "C" "calm" 120 1 "descending" None (Stub.world 1 2 3) = Ok notes
    /\ len notes = 4.
Proof.
  destruct (@valid_request_is_served Stub.random Stub.music21 Stub.torch
              {| req_key := "C"; req_mood := "calm"; req_bpm := 120;
                 req_num_bars := 1; req_pattern_style := "descending";
                 req_seed := None |}
              (Stub.world 1 2 3) (Stub.world 1 2 3))
    as (notes & Hrun & Hlen & _).
  - unfold request_valid. simpl.
    split; [reflexivity |].
    split; [apply list_elem_of_In; simpl; tauto |].
    split; [lia |]. split; [lia |].
    apply list_elem_of_In; simpl; tauto.
  - reflexivity.
  - vm_compute. discriminate.
  - exists notes. split; [exact Hrun | exact Hlen].
Defined.

Lemma seeding_failure_is_raised_witness :
  @generate_arpeggio Stub.random Stub.music21 Stub.torch
    "C" "calm" 120 1 "descending" (Some (-1)) (Stub.world 1 2 3)
  = Raise ValueError.
Proof.
  apply (@seeding_failure_is_raised Stub.random Stub.music21 Stub.torch).
  left. reflexivity.
Defined.

Lemma rule_styles_ignore_model_witness :
  @generated_notes Stub.random Stub.music21 Stub.torch
    "C" "calm" 120 1 "random" None (Stub.world 1 2 3)
  = @generated_notes Stub.random Stub.music21 Stub.torch
      "C" "calm" 120 1 "random" None (Stub.world 1 5 9).
Proof.
  apply (@rule_styles_ignore_model Stub.random Stub.music21 Stub.torch).
  - discriminate.
  - reflexivity.
Defined.

Lemma short_pattern_renders_as_cycle_witness :
  @create_arpeggio_from_intervals Stub.random Stub.music21
    "C" "calm" [3; 4] 1 120 (42 : @rng_state Stub.random)
  = @create_arpeggio_from_intervals Stub.random Stub.music21
      "C" "calm" (cyclic_prefix [3; 4] (Z.to_nat (4 * 1))) 1 120 42.
Proof.
  apply (@short_pattern_renders_as_cycle Stub.random Stub.music21
           "C" "calm" [3; 4] 1 120 42).
  discriminate.
Defined.
